(** * The per-tile voxel cache [blub::procedural::voxel::tile::accessor]

    A shallow embedding of [accessor.hpp] and the properties of its
    indexing scheme, its counters, its level-of-detail buffer and its
    serialization.

    Conventions of the embedding.
    - [int32] and [uint32] values are integers of [Z]; every arithmetic
      operation the code performs at run time is written with its
      two's-complement wrap-around ([add32], [mul32], [to_uint32]).  For
      the signed operations C++ leaves the overflow undefined; the theorems
      below are stated where no operation wraps.
    - The [static constexpr] members are given their exact value: a
      constant expression that overflows does not compile.  Theorems that
      need the members to be representable say so in a hypothesis.
    - [blub::vector] is a list, indexed with stdpp's lookup and insert; an
      index outside the list is the fault [OutOfBounds].
    - [BASSERT] is modelled as in a checking build: a failed assertion is
      the fault [AssertionFailure].
    - A member function is a computation in the state-and-fault monad [M]
      over the object's fields. *)

From Stdlib Require Import ZArith Lia Bool String.
From stdpp Require Import base list.

Local Open Scope Z_scope.

(** ** Fixed-width integers *)

Definition int32_min : Z := - 2 ^ 31.
Definition int32_max : Z := 2 ^ 31 - 1.

(** Two's-complement reduction to the range of [int32]. *)
Definition to_int32 (n : Z) : Z := (n + 2 ^ 31) mod 2 ^ 32 - 2 ^ 31.

(** Conversion to [uint32]. *)
Definition to_uint32 (n : Z) : Z := n mod 2 ^ 32.

Definition add32 (a b : Z) : Z := to_int32 (a + b).
Definition mul32 (a b : Z) : Z := to_int32 (a * b).

Arguments to_int32 : simpl never.
Arguments to_uint32 : simpl never.
Arguments add32 : simpl never.
Arguments mul32 : simpl never.

(** ** Integer vectors ([blub/math/vector3int.hpp], [vector2int.hpp]) *)

Module vector3int32.
Record t : Type := make { x : Z; y : Z; z : Z }.

(** Modelled from the spec: [vector3int32(val)], the constructor from one
    scalar; [vector3int.hpp] is not part of the sources at hand, and the
    accessor compares a position with [vector3int32(0)] and
    [vector3int32(voxelLengthSurface)] to test every axis against one
    bound. *)
Definition splat (val : Z) : t := make val val val.

(** Modelled from the spec: [operator>=] of [vector3int32], missing with
    the same header; the specification reads the test of [setVoxel] as
    holding "on every axis". *)
Definition ge (a b : t) : bool :=
  (x a >=? x b) && (y a >=? y b) && (z a >=? z b).

(** Modelled from the spec: [operator<] of [vector3int32], on every axis
    as well. *)
Definition lt (a b : t) : bool :=
  (x a <? x b) && (y a <? y b) && (z a <? z b).
End vector3int32.

Module vector2int32.
Record t : Type := make { x : Z; y : Z }.

(** Modelled from the spec: [vector2int32(val)], which also converts the
    scalar in [index >= 0] and [index < voxelCountLod]; [vector2int.hpp] is
    not part of the sources at hand. *)
Definition splat (val : Z) : t := make val val.

(** Modelled from the spec: [vector2int32()], returned after the
    unreachable [default] of [calculateCoordsLod]. *)
Definition zero : t := make 0 0.

(** Modelled from the spec: [operator>=] of [vector2int32], on both
    components as for [vector3int32]. *)
Definition ge (a b : t) : bool := (x a >=? x b) && (y a >=? y b).

(** Modelled from the spec: [operator<] of [vector2int32], on both
    components. *)
Definition lt (a b : t) : bool := (x a <? x b) && (y a <? y b).
End vector2int32.

(** ** The configuration ([configType]) *)

(** Modelled from the spec: the voxel sample type [t_config::t_data] is
    not part of the sources at hand; the specification describes it as an
    opaque value with an interpolation scalar and an equality.  The
    accessor uses its value initialisation, [getInterpolation] and
    [operator!=]. *)
Class voxelData (t_voxel : Type) : Type := {
  voxel_default : t_voxel;
  getInterpolation : t_voxel -> Z;
  voxel_neq : t_voxel -> t_voxel -> bool
}.

Class config : Type := {
  t_data : Type;
  t_data_ops :: voxelData t_data;
  voxelsPerTile : Z
}.

(** Modelled from the spec: [operator!=] of the sample type is not part of
    the sources at hand; the specification takes sample equality to be
    "value equality of its full scalar state". *)
Definition neq_is_inequality (t_voxel : Type) `{voxelData t_voxel} : Prop :=
  forall a b : t_voxel, voxel_neq a b = false <-> a = b.

(** ** Faults and the monad of member functions *)

Inductive fault : Type :=
  | AssertionFailure
  | OutOfBounds
  | NullDereference
  | ArchiveMismatch.

Inductive result (A : Type) : Type :=
  | Ok (a : A)
  | Err (f : fault).
Arguments Ok {A} a.
Arguments Err {A} f.

Definition M (St A : Type) : Type := St -> result (A * St).

#[export] Instance result_ret : MRet result := fun A a => Ok a.
#[export] Instance result_bind : MBind result := fun A B f r =>
  match r with
  | Ok a => f a
  | Err e => Err e
  end.

#[export] Instance M_ret {St} : MRet (M St) := fun A a s => Ok (a, s).
#[export] Instance M_bind {St} : MBind (M St) := fun A B f m s =>
  match m s with
  | Ok (a, s') => f a s'
  | Err e => Err e
  end.

Definition gets {St A} (f : St -> A) : M St A := fun s => Ok (f s, s).
Definition modify {St} (f : St -> St) : M St unit := fun s => Ok (tt, f s).
Definition throw {St A} (e : fault) : M St A := fun _ => Err e.
Definition BASSERT {St} (b : bool) : M St unit :=
  if b then mret tt else throw AssertionFailure.
Definition lift_result {St A} (r : result A) : M St A :=
  match r with Ok a => mret a | Err e => throw e end.

(** [keeps P m]: a successful run of [m] from a state in [P] ends in [P]. *)
Definition keeps {St A} (P : St -> Prop) (m : M St A) : Prop :=
  forall (s s' : St) (r : A), P s -> m s = Ok (r, s') -> P s'.

(** [BASSERT] in a function without an object. *)
Definition check (b : bool) : result unit :=
  if b then Ok tt else Err AssertionFailure.

(** [v[i]] on a [blub::vector]. *)
Definition vector_at {A} (v : list A) (i : Z) : result A :=
  if i <? 0 then Err OutOfBounds
  else match v !! Z.to_nat i with
       | Some a => Ok a
       | None => Err OutOfBounds
       end.

(** [v[i] = a]. *)
Definition vector_assign {A} (v : list A) (i : Z) (a : A) : result (list A) :=
  if (i <? 0) || (Z.of_nat (length v) <=? i) then Err OutOfBounds
  else Ok (<[Z.to_nat i := a]> v).

(** ** The accessor *)

Section Accessor.
Context {cfg : config}.

Local Abbreviation t_voxel := t_data.

(** *** Derived constants *)
Definition voxelLength : Z := voxelsPerTile.
Definition voxelLengthWithNormalCorrection : Z := voxelLength + 3.
Definition voxelLengthLod : Z := (voxelLength + 1) * 2.
Definition voxelCount : Z :=
  voxelLengthWithNormalCorrection * voxelLengthWithNormalCorrection
  * voxelLengthWithNormalCorrection.
Definition voxelCountLod : Z := voxelLengthLod * voxelLengthLod.
Definition voxelCountLodAll : Z := 6 * voxelCountLod.
Definition voxelLengthSurface : Z := voxelsPerTile + 1.
Definition voxelCountSurface : Z :=
  voxelLengthSurface * voxelLengthSurface * voxelLengthSurface.

(** *** Fields *)
Record accessor : Type := {
  m_voxels : list t_voxel;
  m_voxelsLod : option (list t_voxel);
  m_calculateLod : bool;
  m_numVoxelLargerZero : Z;
  m_numVoxelLargerZeroLod : Z
}.

Definition set_voxels (v : list t_voxel) (a : accessor) : accessor :=
  {| m_voxels := v; m_voxelsLod := m_voxelsLod a;
     m_calculateLod := m_calculateLod a;
     m_numVoxelLargerZero := m_numVoxelLargerZero a;
     m_numVoxelLargerZeroLod := m_numVoxelLargerZeroLod a |}.
Definition set_voxelsLod (p : option (list t_voxel)) (a : accessor) : accessor :=
  {| m_voxels := m_voxels a; m_voxelsLod := p;
     m_calculateLod := m_calculateLod a;
     m_numVoxelLargerZero := m_numVoxelLargerZero a;
     m_numVoxelLargerZeroLod := m_numVoxelLargerZeroLod a |}.
Definition set_calculateLod (b : bool) (a : accessor) : accessor :=
  {| m_voxels := m_voxels a; m_voxelsLod := m_voxelsLod a;
     m_calculateLod := b;
     m_numVoxelLargerZero := m_numVoxelLargerZero a;
     m_numVoxelLargerZeroLod := m_numVoxelLargerZeroLod a |}.
Definition set_numVoxelLargerZero (n : Z) (a : accessor) : accessor :=
  {| m_voxels := m_voxels a; m_voxelsLod := m_voxelsLod a;
     m_calculateLod := m_calculateLod a;
     m_numVoxelLargerZero := n;
     m_numVoxelLargerZeroLod := m_numVoxelLargerZeroLod a |}.
Definition set_numVoxelLargerZeroLod (n : Z) (a : accessor) : accessor :=
  {| m_voxels := m_voxels a; m_voxelsLod := m_voxelsLod a;
     m_calculateLod := m_calculateLod a;
     m_numVoxelLargerZero := m_numVoxelLargerZero a;
     m_numVoxelLargerZeroLod := n |}.

(** [*m_voxelsLod]. *)
Definition deref_voxelsLod : M accessor (list t_voxel) := fun a =>
  match m_voxelsLod a with
  | Some v => Ok (v, a)
  | None => Err NullDereference
  end.

(** *** Construction *)
Definition create : accessor :=
  {| m_voxels := replicate (Z.to_nat voxelCount) voxel_default;
     m_voxelsLod := None;
     m_calculateLod := false;
     m_numVoxelLargerZero := 0;
     m_numVoxelLargerZeroLod := 0 |}.

(** *** Main array *)

(** The index expression of [setVoxel] and [getVoxel], with the
    parenthesisation C++ gives it. *)
Definition voxel_index (pos : vector3int32.t) : Z :=
  add32
    (add32
       (add32
          (mul32 (mul32 (add32 (vector3int32.x pos) 1)
                        voxelLengthWithNormalCorrection)
                 voxelLengthWithNormalCorrection)
          (mul32 (add32 (vector3int32.y pos) 1)
                 voxelLengthWithNormalCorrection))
       (vector3int32.z pos))
    1.

Definition assert_voxel_pos (pos : vector3int32.t) : M accessor unit :=
  BASSERT (vector3int32.x pos >=? -1) ;;
  BASSERT (vector3int32.y pos >=? -1) ;;
  BASSERT (vector3int32.z pos >=? -1) ;;
  BASSERT (vector3int32.x pos <? voxelLengthWithNormalCorrection - 1) ;;
  BASSERT (vector3int32.y pos <? voxelLengthWithNormalCorrection - 1) ;;
  BASSERT (vector3int32.z pos <? voxelLengthWithNormalCorrection - 1).

Definition setVoxel (pos : vector3int32.t) (toSet : t_voxel) : M accessor bool :=
  assert_voxel_pos pos ;;
  (if (getInterpolation toSet >=? 0)
      && vector3int32.ge pos (vector3int32.splat 0)
      && vector3int32.lt pos (vector3int32.splat voxelLengthSurface)
   then modify (fun a =>
          set_numVoxelLargerZero (add32 (m_numVoxelLargerZero a) 1) a)
   else mret tt) ;;
  let index := voxel_index pos in
  voxels ← gets m_voxels;
  oldValue ← lift_result (vector_at voxels index);
  voxels' ← lift_result (vector_assign voxels index toSet);
  modify (set_voxels voxels') ;;
  mret (voxel_neq oldValue toSet).

Definition getVoxel (pos : vector3int32.t) : M accessor t_voxel :=
  assert_voxel_pos pos ;;
  let index := voxel_index pos in
  voxels ← gets m_voxels;
  lift_result (vector_at voxels index).

(** *** Level-of-detail arrays *)

Definition calculateCoordsLod (pos : vector3int32.t) (lod : Z)
  : result vector2int32.t :=
  let assert := check in
  assert (lod >=? 0) ;;
  assert (lod <? 6) ;;
  assert (vector3int32.x pos >=? 0) ;;
  assert (vector3int32.y pos >=? 0) ;;
  assert (vector3int32.z pos >=? 0) ;;
  assert (vector3int32.x pos <? voxelLengthLod) ;;
  assert (vector3int32.y pos <? voxelLengthLod) ;;
  assert (vector3int32.z pos <? voxelLengthLod) ;;
  assert ((vector3int32.x pos =? 0) || (vector3int32.y pos =? 0)
          || (vector3int32.z pos =? 0)) ;;
  match lod with
  | 0 | 1 =>
      assert (vector3int32.x pos =? 0) ;;
      mret (vector2int32.make (vector3int32.y pos) (vector3int32.z pos))
  | 2 | 3 =>
      assert (vector3int32.y pos =? 0) ;;
      mret (vector2int32.make (vector3int32.x pos) (vector3int32.z pos))
  | 4 | 5 =>
      assert (vector3int32.z pos =? 0) ;;
      mret (vector2int32.make (vector3int32.x pos) (vector3int32.y pos))
  | _ =>
      assert false ;;
      mret vector2int32.zero
  end.

(** The index expression of the 2-D overloads, before any conversion. *)
Definition lod_index (index : vector2int32.t) (lod : Z) : Z :=
  add32
    (add32 (mul32 lod voxelCountLod)
           (mul32 (vector2int32.x index) voxelLengthLod))
    (vector2int32.y index).

(** [setVoxelLod(const vector2int32&, const t_voxel&, const int32&)]. *)
Definition setVoxelLod_2d (index : vector2int32.t) (toSet : t_voxel) (lod : Z)
  : M accessor bool :=
  BASSERT (vector2int32.ge index (vector2int32.splat 0)) ;;
  BASSERT (vector2int32.lt index (vector2int32.splat voxelCountLod)) ;;
  calc ← gets m_calculateLod;
  BASSERT calc ;;
  p ← gets m_voxelsLod;
  BASSERT (bool_decide (is_Some p)) ;;
  (if getInterpolation toSet >=? 0
   then modify (fun a =>
          set_numVoxelLargerZeroLod (add32 (m_numVoxelLargerZeroLod a) 1) a)
   else mret tt) ;;
  let index_ := to_uint32 (lod_index index lod) in
  voxelsLod ← deref_voxelsLod;
  oldValue ← lift_result (vector_at voxelsLod index_);
  voxelsLod' ← lift_result (vector_assign voxelsLod index_ toSet);
  modify (set_voxelsLod (Some voxelsLod')) ;;
  mret (voxel_neq oldValue toSet).

(** [getVoxelLod(const vector2int32&, const int32&)]. *)
Definition getVoxelLod_2d (index : vector2int32.t) (lod : Z)
  : M accessor t_voxel :=
  BASSERT (vector2int32.ge index (vector2int32.splat 0)) ;;
  BASSERT (vector2int32.lt index (vector2int32.splat voxelCountLod)) ;;
  calc ← gets m_calculateLod;
  BASSERT calc ;;
  voxelsLod ← deref_voxelsLod;
  lift_result (vector_at voxelsLod (lod_index index lod)).

Definition setVoxelLod (pos : vector3int32.t) (toSet : t_voxel) (lod : Z)
  : M accessor bool :=
  index ← lift_result (calculateCoordsLod pos lod);
  setVoxelLod_2d index toSet lod.

Definition getVoxelLod (pos : vector3int32.t) (lod : Z) : M accessor t_voxel :=
  index ← lift_result (calculateCoordsLod pos lod);
  getVoxelLod_2d index lod.

(** *** Queries and plain setters *)

Definition isEmpty : M accessor bool :=
  gets (fun a => m_numVoxelLargerZero a =? 0).
Definition isFull : M accessor bool :=
  gets (fun a => m_numVoxelLargerZero a =? voxelCountSurface).
Definition getCalculateLod : M accessor bool := gets m_calculateLod.
Definition getNumVoxelLargerZero : M accessor Z := gets m_numVoxelLargerZero.
Definition getNumVoxelLargerZeroLod : M accessor Z :=
  gets m_numVoxelLargerZeroLod.
Definition getVoxelArray : M accessor (list t_voxel) := gets m_voxels.

(** The handle [m_voxelsLod.get()]; [None] is [nullptr]. *)
Definition getVoxelArrayLod : M accessor (option (list t_voxel)) :=
  gets m_voxelsLod.

Definition setCalculateLod (lod : bool) : M accessor unit :=
  calc ← gets m_calculateLod;
  if eqb calc lod then mret tt
  else
    modify (set_calculateLod lod) ;;
    calc' ← gets m_calculateLod;
    if (calc' : bool) then
      p ← gets m_voxelsLod;
      BASSERT (bool_decide (p = None)) ;;
      modify (set_voxelsLod
                (Some (replicate (Z.to_nat (6 * voxelCountLod)) voxel_default)))
    else
      modify (set_voxelsLod None).

Definition setNumVoxelLargerZero (toSet : Z) : M accessor unit :=
  modify (set_numVoxelLargerZero toSet).
Definition setNumVoxelLargerZeroLod (toSet : Z) : M accessor unit :=
  modify (set_numVoxelLargerZeroLod toSet).

(** *** Serialization *)

(** Modelled from the spec: [blub/serialization] is not part of the
    sources at hand.  An archive is the sequence of the named logical
    fields written to it; reading takes the fields back in the order they
    were written and fails on a field of another name or type. *)
Inductive archive_value : Type :=
  | AvBool (b : bool)
  | AvInt32 (n : Z)
  | AvVector (v : list t_voxel).

Definition archive : Type := list (string * archive_value).

(** Modelled from the spec: the two kinds of [formatType], an archive that
    saves and one that loads. *)
Inductive format : Type := Saving | Loading.

(** A serialization routine runs on the archive and the object. *)
Definition on_self {A} (m : M accessor A) : M (archive * accessor) A :=
  fun '(ar, a) =>
    match m a with
    | Ok (r, a') => Ok (r, (ar, a'))
    | Err e => Err e
    end.

(** Modelled from the spec:
    [readWrite << nameValuePair::create(name, value)] appends the field. *)
Definition archive_put (name : string) (v : archive_value)
  : M (archive * accessor) unit :=
  modify (fun '(ar, a) => (ar ++ [(name, v)], a)).

(** Modelled from the spec:
    [readWrite >> nameValuePair::create(name, variable)] takes the next
    field, which has to carry that name. *)
Definition archive_get (name : string) : M (archive * accessor) archive_value :=
  fun '(ar, a) =>
    match ar with
    | (n, v) :: rest =>
        if String.eqb n name then Ok (v, (rest, a)) else Err ArchiveMismatch
    | [] => Err ArchiveMismatch
    end.

Definition as_bool (v : archive_value) : result bool :=
  match v with AvBool b => Ok b | _ => Err ArchiveMismatch end.
Definition as_int32 (v : archive_value) : result Z :=
  match v with AvInt32 n => Ok n | _ => Err ArchiveMismatch end.
Definition as_vector (v : archive_value) : result (list t_voxel) :=
  match v with AvVector l => Ok l | _ => Err ArchiveMismatch end.

(** Modelled from the spec: [readWrite & nameValuePair::create(name, field)];
    the field is written when the archive saves and overwritten when it
    loads. *)
Definition archive_amp (fmt : format) (name : string)
    (read_field : M accessor archive_value)
    (write_field : archive_value -> M accessor unit)
  : M (archive * accessor) unit :=
  match fmt with
  | Saving => v ← on_self read_field; archive_put name v
  | Loading => v ← archive_get name; on_self (write_field v)
  end.

Definition save : M (archive * accessor) unit :=
  calc ← on_self (gets m_calculateLod);
  archive_put "calculateLod" (AvBool calc).

Definition load : M (archive * accessor) unit :=
  v ← archive_get "calculateLod";
  calculateLod ← lift_result (as_bool v);
  on_self (setCalculateLod calculateLod).

(** Modelled from the spec: [saveLoad(readWrite, *this, version)] calls
    [save] or [load], by the kind of archive. *)
Definition saveLoad (fmt : format) : M (archive * accessor) unit :=
  match fmt with Saving => save | Loading => load end.

Definition serialize (fmt : format) : M (archive * accessor) unit :=
  archive_amp fmt "numVoxelLargerZero"
    (gets (fun a => AvInt32 (m_numVoxelLargerZero a)))
    (fun v => n ← lift_result (as_int32 v);
              modify (set_numVoxelLargerZero n)) ;;
  archive_amp fmt "numVoxelLargerZeroLod"
    (gets (fun a => AvInt32 (m_numVoxelLargerZeroLod a)))
    (fun v => n ← lift_result (as_int32 v);
              modify (set_numVoxelLargerZeroLod n)) ;;
  saveLoad fmt ;;
  archive_amp fmt "voxels"
    (gets (fun a => AvVector (m_voxels a)))
    (fun v => l ← lift_result (as_vector v); modify (set_voxels l)) ;;
  calc ← on_self (gets m_calculateLod);
  if (calc : bool) then
    p ← on_self (gets m_voxelsLod);
    BASSERT (negb (bool_decide (p = None))) ;;
    archive_amp fmt "voxelsLod"
      (l ← deref_voxelsLod; mret (AvVector l))
      (fun v => l ← lift_result (as_vector v);
                _ ← deref_voxelsLod;
                modify (set_voxelsLod (Some l)))
  else mret tt.

(** What [serialize] leaves in a saving archive: the two counters and
    the flag, then the voxel payload. *)
Definition archived_header (a : accessor) : archive :=
  [ ("numVoxelLargerZero"%string, AvInt32 (m_numVoxelLargerZero a));
    ("numVoxelLargerZeroLod"%string, AvInt32 (m_numVoxelLargerZeroLod a));
    ("calculateLod"%string, AvBool (m_calculateLod a)) ].

Definition archived_payload (a : accessor) : archive :=
  ("voxels"%string, AvVector (m_voxels a))
  :: (if m_calculateLod a
      then match m_voxelsLod a with
           | Some voxelsLod => [("voxelsLod"%string, AvVector voxelsLod)]
           | None => []
           end
      else []).

(** *** The operations a client can perform

    The writable reference of [getVoxelArray] and the pointer of
    [getVoxelArrayLod] let the caller overwrite the contents of the two
    arrays; the handle itself stays with the accessor. *)
Inductive call : Type :=
  | Call_setVoxel (pos : vector3int32.t) (toSet : t_voxel)
  | Call_setVoxelLod (pos : vector3int32.t) (toSet : t_voxel) (lod : Z)
  | Call_getVoxel (pos : vector3int32.t)
  | Call_getVoxelLod (pos : vector3int32.t) (lod : Z)
  | Call_isEmpty
  | Call_isFull
  | Call_getCalculateLod
  | Call_getNumVoxelLargerZero
  | Call_getNumVoxelLargerZeroLod
  | Call_getVoxelArray (overwrite : list t_voxel -> list t_voxel)
  | Call_getVoxelArrayLod (overwrite : list t_voxel -> list t_voxel)
  | Call_setCalculateLod (lod : bool)
  | Call_setNumVoxelLargerZero (toSet : Z)
  | Call_setNumVoxelLargerZeroLod (toSet : Z)
  | Call_serialize (fmt : format) (readWrite : archive).

Definition invoke (c : call) : M accessor unit :=
  match c with
  | Call_setVoxel pos toSet => setVoxel pos toSet ;; mret tt
  | Call_setVoxelLod pos toSet lod => setVoxelLod pos toSet lod ;; mret tt
  | Call_getVoxel pos => getVoxel pos ;; mret tt
  | Call_getVoxelLod pos lod => getVoxelLod pos lod ;; mret tt
  | Call_isEmpty => isEmpty ;; mret tt
  | Call_isFull => isFull ;; mret tt
  | Call_getCalculateLod => getCalculateLod ;; mret tt
  | Call_getNumVoxelLargerZero => getNumVoxelLargerZero ;; mret tt
  | Call_getNumVoxelLargerZeroLod => getNumVoxelLargerZeroLod ;; mret tt
  | Call_getVoxelArray overwrite =>
      voxels ← getVoxelArray;
      modify (set_voxels (overwrite voxels))
  | Call_getVoxelArrayLod overwrite =>
      p ← getVoxelArrayLod;
      match p with
      | Some voxelsLod => modify (set_voxelsLod (Some (overwrite voxelsLod)))
      | None => mret tt
      end
  | Call_setCalculateLod lod => setCalculateLod lod
  | Call_setNumVoxelLargerZero toSet => setNumVoxelLargerZero toSet
  | Call_setNumVoxelLargerZeroLod toSet => setNumVoxelLargerZeroLod toSet
  | Call_serialize fmt readWrite => fun a =>
      match serialize fmt (readWrite, a) with
      | Ok (_, (_, a')) => Ok (tt, a')
      | Err e => Err e
      end
  end.

(** *** Conditions on positions and states *)

(** Every component in [[-1, voxelLengthWithNormalCorrection-2]]. *)
Definition in_halo_range (pos : vector3int32.t) : Prop :=
  -1 <= vector3int32.x pos <= voxelLengthWithNormalCorrection - 2 /\
  -1 <= vector3int32.y pos <= voxelLengthWithNormalCorrection - 2 /\
  -1 <= vector3int32.z pos <= voxelLengthWithNormalCorrection - 2.

(** Every component in [[0, voxelLengthSurface)]. *)
Definition in_surface (pos : vector3int32.t) : bool :=
  (0 <=? vector3int32.x pos) && (vector3int32.x pos <? voxelLengthSurface)
  && (0 <=? vector3int32.y pos) && (vector3int32.y pos <? voxelLengthSurface)
  && (0 <=? vector3int32.z pos) && (vector3int32.z pos <? voxelLengthSurface).

(** The index formulas as the specification writes them. *)
Definition voxel_index_formula (pos : vector3int32.t) : Z :=
  (vector3int32.x pos + 1) * voxelLengthWithNormalCorrection ^ 2
  + (vector3int32.y pos + 1) * voxelLengthWithNormalCorrection
  + (vector3int32.z pos + 1).

Definition lod_index_formula (index : vector2int32.t) (lod : Z) : Z :=
  lod * voxelCountLod + vector2int32.x index * voxelLengthLod
  + vector2int32.y index.

(** Both components in [[0, voxelLengthLod)]. *)
Definition in_lod_plane (index : vector2int32.t) : Prop :=
  0 <= vector2int32.x index < voxelLengthLod /\
  0 <= vector2int32.y index < voxelLengthLod.

(** The precondition of [calculateCoordsLod]: inside the cube of edge
    [voxelLengthLod] and on the zero-plane of the face. *)
Definition on_face (pos : vector3int32.t) (lod : Z) : Prop :=
  0 <= lod < 6 /\
  0 <= vector3int32.x pos < voxelLengthLod /\
  0 <= vector3int32.y pos < voxelLengthLod /\
  0 <= vector3int32.z pos < voxelLengthLod /\
  (lod = 0 \/ lod = 1 -> vector3int32.x pos = 0) /\
  (lod = 2 \/ lod = 3 -> vector3int32.y pos = 0) /\
  (lod = 4 \/ lod = 5 -> vector3int32.z pos = 0).

(** The projection as the specification tabulates it. *)
Definition projectLodCoord_table (pos : vector3int32.t) (lod : Z)
  : vector2int32.t :=
  if (lod =? 0) || (lod =? 1)
  then vector2int32.make (vector3int32.y pos) (vector3int32.z pos)
  else if (lod =? 2) || (lod =? 3)
  then vector2int32.make (vector3int32.x pos) (vector3int32.z pos)
  else vector2int32.make (vector3int32.x pos) (vector3int32.y pos).

(** What [setVoxel] adds to [m_numVoxelLargerZero]. *)
Definition surface_bump (pos : vector3int32.t) (toSet : t_voxel) : Z :=
  if (0 <=? getInterpolation toSet) && in_surface pos then 1 else 0.

(** What [setVoxelLod] adds to [m_numVoxelLargerZeroLod]. *)
Definition lod_bump (toSet : t_voxel) : Z :=
  if 0 <=? getInterpolation toSet then 1 else 0.

(** The main array has its constructed size. *)
Definition voxels_allocated (a : accessor) : Prop :=
  Z.of_nat (length (m_voxels a)) = voxelCount.

(** The handle is non-null iff the flag is set. *)
Definition lod_consistent (a : accessor) : Prop :=
  is_Some (m_voxelsLod a) <-> m_calculateLod a = true.

(** The same, at a point where the handle is known to be non-null. *)
Definition lod_present (a : accessor) : Prop :=
  lod_consistent a /\ is_Some (m_voxelsLod a).

(** A condition on the object, read on the state of a serialization. *)
Definition on_object (Q : accessor -> Prop) : archive * accessor -> Prop :=
  fun s => Q (snd s).

(** Level of detail is enabled and its buffer has its allocated size. *)
Definition lod_enabled (a : accessor) : Prop :=
  m_calculateLod a = true /\
  exists l, m_voxelsLod a = Some l /\ Z.of_nat (length l) = voxelCountLodAll.

End Accessor.

Arguments voxel_index : simpl never.
Arguments lod_index : simpl never.
Arguments voxelCount : simpl never.
Arguments voxelCountLod : simpl never.
Arguments voxelCountLodAll : simpl never.
Arguments voxelCountSurface : simpl never.
Arguments voxelLengthLod : simpl never.
Arguments voxelLengthSurface : simpl never.
Arguments voxelLengthWithNormalCorrection : simpl never.

(** ** A concrete configuration

    Sixteen voxels per tile; a sample is its interpolation scalar, and the
    value-initialised sample is empty. *)
#[export] Instance scalarVoxel : voxelData Z := {
  voxel_default := -127;
  getInterpolation := fun v => v;
  voxel_neq := fun a b => negb (a =? b)
}.

Definition config16 : config := {|
  t_data := Z;
  t_data_ops := scalarVoxel;
  voxelsPerTile := 16
|}.

(** The accessor of that configuration after [create()],
    [setCalculateLod(true)] and [setNumVoxelLargerZeroLod(3)]. *)
Definition enabled16 : @accessor config16 :=
  set_numVoxelLargerZeroLod 3
    (set_voxelsLod
       (Some (replicate (Z.to_nat (6 * @voxelCountLod config16))
                (voxel_default : @t_data config16)))
       (set_calculateLod true create)).

(** The accessor of that configuration after [create()] and
    [setVoxel((0,0,0), 5)]. *)
Definition written16 : @accessor config16 :=
  set_voxels (<[381%nat := 5]> (m_voxels create))
    (set_numVoxelLargerZero 1 create).

(** [enabled16] after [setVoxelLod((0,3,5), 9, 1)]. *)
Definition writtenLod16 : @accessor config16 :=
  set_voxelsLod
    (Some (<[1263%nat := 9]>
             (replicate (Z.to_nat (6 * @voxelCountLod config16))
                (voxel_default : @t_data config16))))
    (set_numVoxelLargerZeroLod 4 enabled16).

(** ** Clients of the accessor *)

(** A loop of a client over the elements of a list. *)
Fixpoint for_each {St A B} (f : A -> M St B) (l : list A) : M St unit :=
  match l with
  | [] => mret tt
  | x :: l' => f x ;; for_each f l'
  end.

(** [fails_within E P m]: a run of [m] from a state in [P] that ends in a
    fault ends in one of [E]. *)
Definition fails_within {St A} (E : fault -> Prop) (P : St -> Prop) (m : M St A)
  : Prop :=
  forall (s : St) (e : fault), P s -> m s = Err e -> E e.

Section Clients.
Context {cfg : config}.

Local Abbreviation t_voxel := t_data.

(** The positions of the surface region, [x] outermost. *)
Definition surface_positions : list vector3int32.t :=
  (fun p : Z * (Z * Z) => vector3int32.make (fst p) (fst (snd p)) (snd (snd p)))
  <$> list_prod (seqZ 0 voxelLengthSurface)
        (list_prod (seqZ 0 voxelLengthSurface) (seqZ 0 voxelLengthSurface)).

(** What a list of writes adds to [m_numVoxelLargerZero]. *)
Definition counted_writes (ws : list (vector3int32.t * t_voxel)) : Z :=
  foldr (fun w n => surface_bump (fst w) (snd w) + n) 0 ws.

(** Both arrays have the sizes the accessor allocates, and the handle is
    non-null iff the flag is set. *)
Definition well_sized (a : accessor) : Prop :=
  voxels_allocated a /\
  lod_consistent a /\
  forall l, m_voxelsLod a = Some l -> Z.of_nat (length l) = voxelCountLodAll.

(** The calls that cannot resize an array: all but loading an archive, and
    overwriting through the handed-out references only with as many
    samples as there were. *)
Definition keeps_sizes (c : call) : Prop :=
  match c with
  | Call_getVoxelArray overwrite => forall l, length (overwrite l) = length l
  | Call_getVoxelArrayLod overwrite => forall l, length (overwrite l) = length l
  | Call_serialize Loading _ => False
  | _ => True
  end.

(** One voxel apart, or less, on every axis. *)
Definition adjacent (p q : vector3int32.t) : Prop :=
  -1 <= vector3int32.x q - vector3int32.x p <= 1 /\
  -1 <= vector3int32.y q - vector3int32.y p <= 1 /\
  -1 <= vector3int32.z q - vector3int32.z p <= 1.

End Clients.

(** ** Properties *)

(** *** Fixed-width arithmetic *)

Lemma to_int32_id (n : Z) : int32_min <= n <= int32_max -> to_int32 n = n.
Proof.
  unfold to_int32, int32_min, int32_max. intros Hn.
  rewrite Z.mod_small; lia.
Qed.

Lemma to_uint32_id (n : Z) : 0 <= n <= int32_max -> to_uint32 n = n.
Proof.
  unfold to_uint32, int32_max. intros Hn. apply Z.mod_small. lia.
Qed.

Lemma add32_exact (a b : Z) :
  int32_min <= a + b <= int32_max -> add32 a b = a + b.
Proof. apply to_int32_id. Qed.

Lemma mul32_exact (a b : Z) :
  int32_min <= a * b <= int32_max -> mul32 a b = a * b.
Proof. apply to_int32_id. Qed.

(** Row-major indexing of a cube of edge [h] stays inside the cube. *)
Lemma cube_index_bounds (h a b c : Z) :
  0 <= a < h -> 0 <= b < h -> 0 <= c < h ->
  0 <= a * h <= h * h * h - 1 /\
  0 <= a * h * h <= h * h * h - 1 /\
  0 <= b * h <= h * h * h - 1 /\
  0 <= a * h * h + b * h <= h * h * h - h /\
  0 <= a * h * h + b * h + c < h * h * h.
Proof.
  intros Ha Hb Hc.
  assert (Hh : 1 <= h) by lia.
  assert (Hhh : h <= h * h) by nia.
  assert (Hah : 0 <= a * h <= (h - 1) * h) by nia.
  assert (Hbh : 0 <= b * h <= (h - 1) * h) by nia.
  assert (Hahh : 0 <= a * h * h <= (h - 1) * h * h) by nia.
  assert (Hcube : (h - 1) * h * h = h * h * h - h * h) by ring.
  assert (Hsq : (h - 1) * h = h * h - h) by ring.
  assert (Hhhh : h * h <= h * h * h) by nia.
  repeat split; lia.
Qed.

(** Indexing one of six planes of edge [l]. *)
Lemma plane_index_bounds (l f a b : Z) :
  0 <= f < 6 -> 0 <= a < l -> 0 <= b < l ->
  0 <= f * (l * l) <= 5 * (l * l) /\
  0 <= a * l <= l * l - l /\
  0 <= f * (l * l) + a * l + b < 6 * (l * l).
Proof.
  intros Hf Ha Hb.
  assert (Hll : 0 <= l * l) by nia.
  assert (Hfl : 0 <= f * (l * l) <= 5 * (l * l)) by nia.
  assert (Hal : 0 <= a * l <= (l - 1) * l) by nia.
  assert (Hsq : (l - 1) * l = l * l - l) by ring.
  repeat split; lia.
Qed.

(** *** Vectors *)

Lemma vector_at_in_range {A} (v : list A) (i : Z) :
  0 <= i < Z.of_nat (length v) ->
  exists a, v !! Z.to_nat i = Some a /\ vector_at v i = Ok a.
Proof.
  intros Hi. unfold vector_at.
  destruct (lookup_lt_is_Some_2 v (Z.to_nat i)) as [a Ha]; [lia|].
  exists a. rewrite Ha. split; [reflexivity|].
  destruct (Z.ltb_spec i 0); [lia | reflexivity].
Qed.

Lemma vector_assign_in_range {A} (v : list A) (i : Z) (a : A) :
  0 <= i < Z.of_nat (length v) ->
  vector_assign v i a = Ok (<[Z.to_nat i := a]> v).
Proof.
  intros Hi. unfold vector_assign.
  destruct (Z.ltb_spec i 0); [lia|].
  destruct (Z.leb_spec (Z.of_nat (length v)) i); [lia | reflexivity].
Qed.

(** *** Successful runs, step by step *)

Lemma bind_Ok {St A B} (m : M St A) (f : A -> M St B) (s s' : St) (r : B) :
  (m ≫= f) s = Ok (r, s') ->
  exists x s1, m s = Ok (x, s1) /\ f x s1 = Ok (r, s').
Proof.
  unfold mbind, M_bind. destruct (m s) as [[x s1]|e]; [|discriminate].
  intros Hf. exists x, s1. split; [reflexivity | exact Hf].
Qed.

Lemma gets_Ok {St A} (f : St -> A) (s s' : St) (r : A) :
  gets f s = Ok (r, s') -> r = f s /\ s' = s.
Proof. unfold gets. intros Heq. split; congruence. Qed.

Lemma modify_Ok {St} (f : St -> St) (s s' : St) (u : unit) :
  modify f s = Ok (u, s') -> s' = f s.
Proof. unfold modify. congruence. Qed.

Lemma mret_Ok {St A} (x r : A) (s s' : St) :
  (mret x : M St A) s = Ok (r, s') -> r = x /\ s' = s.
Proof. unfold mret, M_ret. intros Heq. split; congruence. Qed.

Lemma BASSERT_Ok {St} (b : bool) (s s' : St) (u : unit) :
  BASSERT b s = Ok (u, s') -> b = true /\ s' = s.
Proof.
  unfold BASSERT, mret, M_ret, throw. destruct b; [|discriminate].
  intros Heq. split; congruence.
Qed.

Lemma lift_result_Ok {St A} (x : result A) (s s' : St) (r : A) :
  lift_result x s = Ok (r, s') -> x = Ok r /\ s' = s.
Proof.
  unfold lift_result, mret, M_ret, throw. destruct x as [y|e]; [|discriminate].
  intros Heq. split; congruence.
Qed.

(** *** Preservation, step by step *)

Create HintDb keeps.

Lemma keeps_bind {St A B} (P : St -> Prop) (m : M St A) (f : A -> M St B) :
  keeps P m -> (forall x, keeps P (f x)) -> keeps P (m ≫= f).
Proof.
  intros Hm Hf s s' r HP Hrun.
  apply bind_Ok in Hrun. destruct Hrun as (x & s1 & Hrun1 & Hrun2).
  exact (Hf x s1 s' r (Hm s s1 x HP Hrun1) Hrun2).
Qed.

Lemma keeps_mret {St A} (P : St -> Prop) (x : A) : keeps P (mret x : M St A).
Proof. intros s s' r HP Hrun. apply mret_Ok in Hrun. destruct Hrun; subst; exact HP. Qed.

Lemma keeps_gets {St A} (P : St -> Prop) (f : St -> A) : keeps P (gets f).
Proof. intros s s' r HP Hrun. apply gets_Ok in Hrun. destruct Hrun; subst; exact HP. Qed.

Lemma keeps_throw {St A} (P : St -> Prop) (e : fault) : keeps P (throw e : M St A).
Proof. intros s s' r HP Hrun. discriminate Hrun. Qed.

Lemma keeps_BASSERT {St} (P : St -> Prop) (b : bool) : keeps P (BASSERT b).
Proof. intros s s' r HP Hrun. apply BASSERT_Ok in Hrun. destruct Hrun; subst; exact HP. Qed.

Lemma keeps_lift_result {St A} (P : St -> Prop) (x : result A) :
  keeps P (lift_result x).
Proof.
  intros s s' r HP Hrun. apply lift_result_Ok in Hrun. destruct Hrun; subst; exact HP.
Qed.

Lemma keeps_modify {St} (P : St -> Prop) (f : St -> St) :
  (forall s, P s -> P (f s)) -> keeps P (modify f).
Proof. intros Hf s s' r HP Hrun. apply modify_Ok in Hrun. subst. exact (Hf s HP). Qed.

Lemma keeps_if {St A} (P : St -> Prop) (b : bool) (m1 m2 : M St A) :
  keeps P m1 -> keeps P m2 -> keeps P (if b then m1 else m2).
Proof. destruct b; intros; assumption. Qed.

#[export] Hint Resolve keeps_bind keeps_mret keeps_gets keeps_throw keeps_BASSERT
  keeps_lift_result keeps_modify keeps_if : keeps.

(** Rewrites the comparisons of the goal that the context decides. *)
Ltac decide_cmp :=
  repeat match goal with
    | |- context [Z.geb ?a ?b] => rewrite (proj2 (Z.geb_le a b)) by lia
    | |- context [Z.ltb ?a ?b] => rewrite (proj2 (Z.ltb_lt a b)) by lia
    | |- context [Z.leb ?a ?b] => rewrite (proj2 (Z.leb_le a b)) by lia
    | |- context [Z.eqb ?a ?b] => rewrite (proj2 (Z.eqb_eq a b)) by lia
    end.

Section Properties.
Context {cfg : config}.

Local Abbreviation t_voxel := t_data.

Lemma voxel_index_exact (pos : vector3int32.t) :
  voxelCount <= int32_max ->
  in_halo_range pos ->
  voxel_index pos = voxel_index_formula pos /\
  0 <= voxel_index pos < voxelCount.
Proof.
  unfold in_halo_range, voxel_index, voxel_index_formula, voxelCount.
  destruct pos as [px py pz]; simpl.
  set (h := voxelLengthWithNormalCorrection).
  intros Hfit (Hx & Hy & Hz).
  destruct (cube_index_bounds h (px + 1) (py + 1) (pz + 1))
    as (B1 & B2 & B3 & B4 & B5); try lia.
  assert (Hmin : int32_min < -1) by (unfold int32_min; lia).
  assert (Hh : 1 <= h) by lia.
  rewrite (add32_exact px 1) by nia.
  rewrite (add32_exact py 1) by nia.
  rewrite (mul32_exact (px + 1) h) by lia.
  rewrite (mul32_exact ((px + 1) * h) h) by lia.
  rewrite (mul32_exact (py + 1) h) by lia.
  rewrite (add32_exact ((px + 1) * h * h)) by lia.
  rewrite (add32_exact _ pz) by lia.
  rewrite add32_exact by lia.
  split; [ring | lia].
Qed.

Lemma lod_index_exact (index : vector2int32.t) (lod : Z) :
  voxelCountLodAll <= int32_max ->
  0 <= lod < 6 ->
  in_lod_plane index ->
  lod_index index lod = lod_index_formula index lod /\
  to_uint32 (lod_index index lod) = lod_index_formula index lod /\
  0 <= lod_index_formula index lod < voxelCountLodAll.
Proof.
  unfold in_lod_plane, lod_index, lod_index_formula, voxelCountLodAll,
    voxelCountLod.
  destruct index as [ix iy]; simpl.
  set (l := voxelLengthLod).
  intros Hfit Hlod (Hx & Hy).
  destruct (plane_index_bounds l lod ix iy) as (B1 & B2 & B3); try lia.
  assert (Hmin : int32_min < 0) by (unfold int32_min; lia).
  assert (Hl : 1 <= l) by lia.
  rewrite (mul32_exact lod) by lia.
  rewrite (mul32_exact ix) by nia.
  rewrite (add32_exact (lod * (l * l))) by nia.
  rewrite add32_exact by lia.
  split; [reflexivity|]. split; [|lia].
  apply to_uint32_id. lia.
Qed.

(** *** The main array *)

(** What [oldValue != toSet] tells. *)
Lemma neq_reports (oldValue toSet : t_voxel) :
  neq_is_inequality t_voxel ->
  (voxel_neq oldValue toSet = false <-> toSet = oldValue) /\
  (voxel_neq oldValue toSet = true <-> toSet <> oldValue).
Proof.
  intros Hneq. pose proof (Hneq oldValue toSet) as [Hfalse Heq].
  destruct (voxel_neq oldValue toSet).
  - split; split; intros Hc; try congruence.
    + symmetry in Hc. specialize (Heq Hc). discriminate.
    + intros Habs. symmetry in Habs. specialize (Heq Habs). discriminate.
  - split; split; intros Hc; try congruence.
    + symmetry. apply Hfalse. reflexivity.
    + exfalso. apply Hc. symmetry. apply Hfalse. reflexivity.
Qed.

Lemma assert_voxel_pos_ok (pos : vector3int32.t) (a : accessor) :
  in_halo_range pos -> assert_voxel_pos pos a = Ok (tt, a).
Proof.
  unfold in_halo_range, assert_voxel_pos. intros (Hx & Hy & Hz).
  decide_cmp. reflexivity.
Qed.

(** The assertions of a function leave the object alone. *)
Lemma assert_voxel_pos_pure (pos : vector3int32.t) (a a' : accessor) u :
  assert_voxel_pos pos a = Ok (u, a') -> a' = a.
Proof.
  unfold assert_voxel_pos, BASSERT, mbind, M_bind, mret, M_ret, throw.
  repeat match goal with
    | |- context [if ?b then _ else _] => destruct b; simpl
    end; congruence.
Qed.

(** [pos >= vector3int32(0) && pos < vector3int32(voxelLengthSurface)]
    says that [pos] is in the surface region. *)
Lemma surface_test (pos : vector3int32.t) :
  vector3int32.ge pos (vector3int32.splat 0)
  && vector3int32.lt pos (vector3int32.splat voxelLengthSurface)
  = in_surface pos.
Proof.
  unfold vector3int32.ge, vector3int32.lt, vector3int32.splat, in_surface.
  destruct pos as [px py pz]; simpl.
  rewrite !Z.geb_leb.
  destruct (0 <=? px), (0 <=? py), (0 <=? pz),
    (px <? voxelLengthSurface), (py <? voxelLengthSurface),
    (pz <? voxelLengthSurface); reflexivity.
Qed.

(** [setVoxel] in one step, for a position in range. *)
Lemma setVoxel_run (pos : vector3int32.t) (toSet : t_voxel) (a : accessor) :
  voxelCount <= int32_max ->
  voxels_allocated a ->
  in_halo_range pos ->
  exists oldValue,
    m_voxels a !! Z.to_nat (voxel_index_formula pos) = Some oldValue /\
    setVoxel pos toSet a =
      Ok (voxel_neq oldValue toSet,
          set_voxels (<[Z.to_nat (voxel_index_formula pos) := toSet]> (m_voxels a))
            (set_numVoxelLargerZero
               (if (0 <=? getInterpolation toSet) && in_surface pos
                then add32 (m_numVoxelLargerZero a) 1
                else m_numVoxelLargerZero a) a)).
Proof.
  intros Hfit Halloc Hpos.
  destruct (voxel_index_exact pos Hfit Hpos) as [Hidx Hbound].
  unfold voxels_allocated in Halloc.
  destruct (vector_at_in_range (m_voxels a) (voxel_index pos)) as (old & Hold & Hat);
    [lia|].
  exists old. rewrite <- Hidx. split; [exact Hold|].
  unfold setVoxel, mbind, M_bind.
  rewrite (assert_voxel_pos_ok pos a Hpos).
  rewrite <- andb_assoc, surface_test, Z.geb_leb.
  destruct ((0 <=? getInterpolation toSet) && in_surface pos);
    unfold modify, gets, mret, M_ret;
    cbn [m_voxels set_numVoxelLargerZero];
    rewrite Hat; cbn [lift_result mret M_ret];
    rewrite (vector_assign_in_range _ _ toSet) by lia;
    cbn [lift_result mret M_ret]; [reflexivity|].
  destruct a; reflexivity.
Qed.

(** [getVoxel] in one step, for a position in range. *)
Lemma getVoxel_run (pos : vector3int32.t) (a : accessor) :
  voxelCount <= int32_max ->
  voxels_allocated a ->
  in_halo_range pos ->
  exists v,
    m_voxels a !! Z.to_nat (voxel_index_formula pos) = Some v /\
    getVoxel pos a = Ok (v, a).
Proof.
  intros Hfit Halloc Hpos.
  destruct (voxel_index_exact pos Hfit Hpos) as [Hidx Hbound].
  unfold voxels_allocated in Halloc.
  destruct (vector_at_in_range (m_voxels a) (voxel_index pos)) as (v & Hv & Hat);
    [lia|].
  exists v. rewrite <- Hidx. split; [exact Hv|].
  unfold getVoxel, mbind, M_bind.
  rewrite (assert_voxel_pos_ok pos a Hpos). unfold gets.
  rewrite Hat. reflexivity.
Qed.

Lemma getVoxel_pure (pos : vector3int32.t) (a a' : accessor) (v : t_voxel) :
  getVoxel pos a = Ok (v, a') -> a' = a.
Proof.
  unfold getVoxel, mbind, M_bind.
  destruct (assert_voxel_pos pos a) as [[u a1]|e] eqn:Hassert; [|discriminate].
  apply assert_voxel_pos_pure in Hassert. subst a1. unfold gets.
  destruct (vector_at (m_voxels a) (voxel_index pos));
    unfold lift_result, mret, M_ret, throw; congruence.
Qed.

Lemma voxel_index_formula_bounds (pos : vector3int32.t) :
  in_halo_range pos -> 0 <= voxel_index_formula pos < voxelCount.
Proof.
  unfold in_halo_range, voxel_index_formula, voxelCount.
  destruct pos as [px py pz];
    cbn [vector3int32.x vector3int32.y vector3int32.z].
  set (h := voxelLengthWithNormalCorrection).
  intros (Hx & Hy & Hz).
  assert (Hx' : 0 <= px + 1 < h) by lia.
  assert (Hy' : 0 <= py + 1 < h) by lia.
  assert (Hz' : 0 <= pz + 1 < h) by lia.
  pose proof (cube_index_bounds h (px + 1) (py + 1) (pz + 1) Hx' Hy' Hz')
    as (_ & _ & _ & _ & Hbound).
  rewrite Z.pow_2_r. lia.
Qed.

Lemma lod_index_formula_bounds (index : vector2int32.t) (lod : Z) :
  0 <= lod < 6 ->
  in_lod_plane index ->
  0 <= lod_index_formula index lod < voxelCountLodAll.
Proof.
  unfold in_lod_plane, lod_index_formula, voxelCountLodAll, voxelCountLod.
  destruct index as [ix iy]; cbn [vector2int32.x vector2int32.y].
  intros Hlod (Hx & Hy).
  pose proof (plane_index_bounds voxelLengthLod lod ix iy Hlod Hx Hy)
    as (_ & _ & Hbound).
  exact Hbound.
Qed.

(** C9: for a position with every component in
    [[-1, voxelLengthWithNormalCorrection-2]] the index
    [(x+1)*H^2 + (y+1)*H + (z+1)] lies in [[0, voxelCount)]; for a face in
    [[0,6)] and a 2-D coordinate with both components in
    [[0, voxelLengthLod)] the index
    [lod*voxelCountLod + x*voxelLengthLod + y] lies in
    [[0, voxelCountLodAll)]; and when these two counts are [int32] values
    the index expressions of the code compute these formulas without
    wrapping, so the accesses to arrays of these sizes are in bounds. *)
Theorem indices_in_bounds :
  (forall pos : vector3int32.t,
      in_halo_range pos -> 0 <= voxel_index_formula pos < voxelCount) /\
  (forall (index : vector2int32.t) (lod : Z),
      0 <= lod < 6 ->
      in_lod_plane index ->
      0 <= lod_index_formula index lod < voxelCountLodAll) /\
  (voxelCount <= int32_max ->
   forall pos : vector3int32.t,
     in_halo_range pos ->
     voxel_index pos = voxel_index_formula pos /\
     forall voxels : list t_voxel,
       Z.of_nat (length voxels) = voxelCount ->
       exists v, vector_at voxels (voxel_index pos) = Ok v) /\
  (voxelCountLodAll <= int32_max ->
   forall (index : vector2int32.t) (lod : Z),
     0 <= lod < 6 ->
     in_lod_plane index ->
     lod_index index lod = lod_index_formula index lod /\
     to_uint32 (lod_index index lod) = lod_index_formula index lod /\
     forall voxelsLod : list t_voxel,
       Z.of_nat (length voxelsLod) = voxelCountLodAll ->
       exists v,
         vector_at voxelsLod (lod_index index lod) = Ok v /\
         vector_at voxelsLod (to_uint32 (lod_index index lod)) = Ok v).
Proof.
  split; [exact voxel_index_formula_bounds|].
  split; [exact lod_index_formula_bounds|].
  split.
  - intros Hfit pos Hpos.
    destruct (voxel_index_exact pos Hfit Hpos) as [Hidx Hbound].
    split; [exact Hidx|].
    intros voxels Hlen.
    destruct (vector_at_in_range voxels (voxel_index pos)) as (v & _ & Hv);
      [lia|].
    exists v. exact Hv.
  - intros HfitLod index lod Hlod Hplane.
    destruct (lod_index_exact index lod HfitLod Hlod Hplane)
      as (Hidx & Huidx & Hbound).
    repeat (split; [assumption|]).
    intros voxelsLod Hlen. rewrite Huidx, Hidx.
    destruct (vector_at_in_range voxelsLod (lod_index_formula index lod))
      as (v & _ & Hv); [lia|].
    exists v. split; exact Hv.
Qed.

(** C1: for a position with every component in
    [[-1, voxelLengthWithNormalCorrection-2]], [getVoxel] after
    [setVoxel] of a sample returns that sample, which is stored at the
    index [(x+1)*H^2 + (y+1)*H + (z+1)]; and [getVoxel] never changes the
    object.  The main array has the size the constructor gave it, and
    [voxelCount] is an [int32]. *)
Theorem setVoxel_getVoxel_roundtrip
    (a : accessor) (pos : vector3int32.t) (v : t_voxel) :
  voxelCount <= int32_max ->
  voxels_allocated a ->
  in_halo_range pos ->
  (exists (changed : bool) (a' : accessor),
      setVoxel pos v a = Ok (changed, a') /\
      m_voxels a' !! Z.to_nat (voxel_index_formula pos) = Some v /\
      getVoxel pos a' = Ok (v, a')) /\
  (forall (q : vector3int32.t) (a1 a2 : accessor) (r : t_voxel),
      getVoxel q a1 = Ok (r, a2) -> a2 = a1).
Proof.
  intros Hfit Halloc Hpos. split.
  - destruct (setVoxel_run pos v a Hfit Halloc Hpos) as (old & Hold & Hset).
    eexists _, _. split; [exact Hset|].
    apply lookup_lt_Some in Hold.
    match type of Hset with _ = Ok (_, ?s) => set (a' := s) in * end.
    assert (Halloc' : voxels_allocated a').
    { unfold voxels_allocated, a'. cbn [m_voxels set_voxels].
      rewrite length_insert. exact Halloc. }
    destruct (getVoxel_run pos a' Hfit Halloc' Hpos) as (w & Hw & Hget).
    assert (Hstored : w = v).
    { unfold a' in Hw. cbn [m_voxels set_voxels] in Hw.
      rewrite list_lookup_insert_eq in Hw by lia.
      congruence. }
    subst w. split; [exact Hw | exact Hget].
  - intros q a1 a2 r. apply getVoxel_pure.
Qed.

(** C2: [setVoxel] returns [false] exactly when the sample written equals
    the sample that was stored at the position before the write (the one
    [getVoxel] returns there beforehand), and [true] otherwise. *)
Theorem setVoxel_reports_change
    (a : accessor) (pos : vector3int32.t) (v : t_voxel) :
  neq_is_inequality t_voxel ->
  voxelCount <= int32_max ->
  voxels_allocated a ->
  in_halo_range pos ->
  exists (oldValue : t_voxel) (changed : bool) (a' : accessor),
    getVoxel pos a = Ok (oldValue, a) /\
    setVoxel pos v a = Ok (changed, a') /\
    (changed = false <-> v = oldValue) /\
    (changed = true <-> v <> oldValue).
Proof.
  intros Hneq Hfit Halloc Hpos.
  destruct (setVoxel_run pos v a Hfit Halloc Hpos) as (old & Hold & Hset).
  destruct (getVoxel_run pos a Hfit Halloc Hpos) as (w & Hw & Hget).
  assert (w = old) by congruence. subst w.
  exists old. eexists _, _. split; [exact Hget|]. split; [exact Hset|].
  exact (neq_reports old v Hneq).
Qed.

(** C4: a freshly created accessor holds [voxelCount] value-initialised
    samples, has no level-of-detail array, has the flag cleared and both
    counters at zero; it is empty, and it is not full as soon as
    [voxelCountSurface] is positive. *)
Theorem create_default_state :
  length (m_voxels create) = Z.to_nat voxelCount /\
  (forall v : t_voxel, v ∈ m_voxels create -> v = voxel_default) /\
  m_voxelsLod create = None /\
  m_calculateLod create = false /\
  m_numVoxelLargerZero create = 0 /\
  m_numVoxelLargerZeroLod create = 0 /\
  isEmpty create = Ok (true, create) /\
  (0 < voxelCountSurface -> isFull create = Ok (false, create)).
Proof.
  unfold create at 1 2 3 4 5 6.
  cbn [m_voxels m_voxelsLod m_calculateLod m_numVoxelLargerZero
       m_numVoxelLargerZeroLod].
  split; [apply length_replicate|].
  split; [intros v Hv; apply elem_of_replicate in Hv; tauto|].
  repeat (split; [reflexivity|]).
  intros Hpos. unfold isFull, gets, create; cbn [m_numVoxelLargerZero].
  destruct (Z.eqb_spec 0 voxelCountSurface); [lia | reflexivity].
Qed.

(** *** The level-of-detail arrays *)

Lemma calculateCoordsLod_ok (pos : vector3int32.t) (lod : Z) :
  on_face pos lod ->
  calculateCoordsLod pos lod = Ok (projectLodCoord_table pos lod) /\
  in_lod_plane (projectLodCoord_table pos lod).
Proof.
  unfold on_face, in_lod_plane, calculateCoordsLod, projectLodCoord_table.
  destruct pos as [px py pz]; cbn [vector3int32.x vector3int32.y vector3int32.z].
  intros (Hlod & Hx & Hy & Hz & Hfx & Hfy & Hfz).
  cbv zeta. unfold check. decide_cmp.
  assert (Hcases : lod = 0 \/ lod = 1 \/ lod = 2 \/ lod = 3 \/ lod = 4 \/ lod = 5)
    by lia.
  destruct Hcases as [-> | [-> | [-> | [-> | [-> | ->]]]]];
    cbn [Z.eqb Pos.eqb orb];
    [ rewrite (Hfx (or_introl eq_refl)) | rewrite (Hfx (or_intror eq_refl))
    | rewrite (Hfy (or_introl eq_refl)) | rewrite (Hfy (or_intror eq_refl))
    | rewrite (Hfz (or_introl eq_refl)) | rewrite (Hfz (or_intror eq_refl)) ];
    cbn [Z.eqb orb]; rewrite ?orb_true_r; cbn [orb];
    (split; [reflexivity | cbn [vector2int32.x vector2int32.y]; lia]).
Qed.

Lemma lod_plane_asserts (index : vector2int32.t) :
  in_lod_plane index ->
  vector2int32.ge index (vector2int32.splat 0) = true /\
  vector2int32.lt index (vector2int32.splat voxelCountLod) = true.
Proof.
  unfold in_lod_plane, vector2int32.ge, vector2int32.lt, vector2int32.splat,
    voxelCountLod.
  destruct index as [ix iy]; cbn [vector2int32.x vector2int32.y].
  set (l := voxelLengthLod). intros [Hx Hy].
  assert (Hl : l <= l * l) by nia.
  split; apply andb_true_intro; split;
    first [apply Z.geb_le | apply Z.ltb_lt]; lia.
Qed.

(** The 2-D setter in one step, for a coordinate in the plane. *)
Lemma setVoxelLod_2d_run (index : vector2int32.t) (toSet : t_voxel) (lod : Z)
    (a : accessor) (l : list t_voxel) :
  voxelCountLodAll <= int32_max ->
  m_calculateLod a = true ->
  m_voxelsLod a = Some l ->
  Z.of_nat (length l) = voxelCountLodAll ->
  0 <= lod < 6 ->
  in_lod_plane index ->
  exists oldValue,
    l !! Z.to_nat (lod_index_formula index lod) = Some oldValue /\
    setVoxelLod_2d index toSet lod a =
      Ok (voxel_neq oldValue toSet,
          set_voxelsLod
            (Some (<[Z.to_nat (lod_index_formula index lod) := toSet]> l))
            (set_numVoxelLargerZeroLod
               (if 0 <=? getInterpolation toSet
                then add32 (m_numVoxelLargerZeroLod a) 1
                else m_numVoxelLargerZeroLod a) a)).
Proof.
  intros Hfit Hflag Hptr Hlen Hlod Hplane.
  destruct (lod_index_exact index lod Hfit Hlod Hplane) as (_ & Hidx & Hbound).
  destruct (lod_plane_asserts index Hplane) as [Hge Hlt].
  destruct (vector_at_in_range l (lod_index_formula index lod))
    as (old & Hold & Hat); [lia|].
  exists old. split; [exact Hold|].
  unfold setVoxelLod_2d, mbind, M_bind. cbv zeta.
  rewrite Hge, Hlt, Hidx, Z.geb_leb.
  unfold BASSERT, gets, mret, M_ret. rewrite Hflag, Hptr.
  rewrite bool_decide_eq_true_2 by (eexists; reflexivity).
  destruct (0 <=? getInterpolation toSet);
    unfold modify, deref_voxelsLod;
    cbn [m_voxelsLod set_numVoxelLargerZeroLod];
    rewrite Hptr, Hat; unfold lift_result at 1, mret, M_ret;
    rewrite (vector_assign_in_range _ _ toSet) by lia;
    unfold lift_result, mret, M_ret; [reflexivity|].
  destruct a; reflexivity.
Qed.

(** The 2-D getter in one step, for a coordinate in the plane. *)
Lemma getVoxelLod_2d_run (index : vector2int32.t) (lod : Z)
    (a : accessor) (l : list t_voxel) :
  voxelCountLodAll <= int32_max ->
  m_calculateLod a = true ->
  m_voxelsLod a = Some l ->
  Z.of_nat (length l) = voxelCountLodAll ->
  0 <= lod < 6 ->
  in_lod_plane index ->
  exists v,
    l !! Z.to_nat (lod_index_formula index lod) = Some v /\
    getVoxelLod_2d index lod a = Ok (v, a).
Proof.
  intros Hfit Hflag Hptr Hlen Hlod Hplane.
  destruct (lod_index_exact index lod Hfit Hlod Hplane) as (Hidx & _ & Hbound).
  destruct (lod_plane_asserts index Hplane) as [Hge Hlt].
  destruct (vector_at_in_range l (lod_index_formula index lod))
    as (v & Hv & Hat); [lia|].
  exists v. split; [exact Hv|].
  unfold getVoxelLod_2d, mbind, M_bind.
  rewrite Hge, Hlt, Hidx.
  unfold BASSERT, gets, mret, M_ret, deref_voxelsLod. rewrite Hflag, Hptr, Hat.
  reflexivity.
Qed.

(** The 3-D functions project and delegate. *)
Lemma setVoxelLod_delegates (pos : vector3int32.t) (toSet : t_voxel) (lod : Z)
    (a : accessor) :
  on_face pos lod ->
  setVoxelLod pos toSet lod a
  = setVoxelLod_2d (projectLodCoord_table pos lod) toSet lod a.
Proof.
  intros Hface. destruct (calculateCoordsLod_ok pos lod Hface) as [Hproj _].
  unfold setVoxelLod, mbind at 1, M_bind. rewrite Hproj. reflexivity.
Qed.

Lemma getVoxelLod_delegates (pos : vector3int32.t) (lod : Z) (a : accessor) :
  on_face pos lod ->
  getVoxelLod pos lod a = getVoxelLod_2d (projectLodCoord_table pos lod) lod a.
Proof.
  intros Hface. destruct (calculateCoordsLod_ok pos lod Hface) as [Hproj _].
  unfold getVoxelLod, mbind at 1, M_bind. rewrite Hproj. reflexivity.
Qed.

(** C6: on the zero-plane of the face and inside the cube of edge
    [voxelLengthLod], [calculateCoordsLod] returns [(y, z)] for the faces
    0 and 1, [(x, z)] for the faces 2 and 3 and [(x, y)] for the faces 4
    and 5. *)
Theorem calculateCoordsLod_projection (pos : vector3int32.t) (lod : Z) :
  on_face pos lod ->
  (lod = 0 \/ lod = 1 ->
   calculateCoordsLod pos lod
   = Ok (vector2int32.make (vector3int32.y pos) (vector3int32.z pos))) /\
  (lod = 2 \/ lod = 3 ->
   calculateCoordsLod pos lod
   = Ok (vector2int32.make (vector3int32.x pos) (vector3int32.z pos))) /\
  (lod = 4 \/ lod = 5 ->
   calculateCoordsLod pos lod
   = Ok (vector2int32.make (vector3int32.x pos) (vector3int32.y pos))).
Proof.
  intros Hface. destruct (calculateCoordsLod_ok pos lod Hface) as [-> _].
  unfold projectLodCoord_table.
  repeat split; intros [-> | ->]; reflexivity.
Qed.

(** C7: with level of detail enabled, on a face in [[0,6)] and at a
    position that meets the precondition of the projection,
    [getVoxelLod] after [setVoxelLod] of a sample returns that sample;
    both work at the index [lod*voxelCountLod + x2D*voxelLengthLod + y2D]
    of the projected coordinate, and the setter returns whether the
    stored sample changed. *)
Theorem setVoxelLod_getVoxelLod_roundtrip
    (a : accessor) (pos : vector3int32.t) (v : t_voxel) (lod : Z) :
  neq_is_inequality t_voxel ->
  voxelCountLodAll <= int32_max ->
  lod_enabled a ->
  on_face pos lod ->
  exists (index : vector2int32.t) (l : list t_voxel) (oldValue : t_voxel)
         (changed : bool) (a' : accessor),
    calculateCoordsLod pos lod = Ok index /\
    m_voxelsLod a = Some l /\
    l !! Z.to_nat (lod_index_formula index lod) = Some oldValue /\
    getVoxelLod pos lod a = Ok (oldValue, a) /\
    setVoxelLod pos v lod a = Ok (changed, a') /\
    m_voxelsLod a' = Some (<[Z.to_nat (lod_index_formula index lod) := v]> l) /\
    getVoxelLod pos lod a' = Ok (v, a') /\
    (changed = true <-> v <> oldValue).
Proof.
  intros Hneq Hfit (Hflag & l & Hptr & Hlen) Hface.
  destruct (calculateCoordsLod_ok pos lod Hface) as [Hproj Hplane].
  assert (Hlod : 0 <= lod < 6) by (destruct Hface; assumption).
  set (index := projectLodCoord_table pos lod) in *.
  destruct (setVoxelLod_2d_run index v lod a l Hfit Hflag Hptr Hlen Hlod Hplane)
    as (old & Hold & Hset).
  destruct (getVoxelLod_2d_run index lod a l Hfit Hflag Hptr Hlen Hlod Hplane)
    as (w & Hw & Hget).
  assert (w = old) by congruence. subst w.
  match type of Hset with _ = Ok (_, ?s) => set (a' := s) in * end.
  assert (Hlen' : Z.of_nat
                    (length (<[Z.to_nat (lod_index_formula index lod) := v]> l))
                  = voxelCountLodAll)
    by (rewrite length_insert; exact Hlen).
  destruct (getVoxelLod_2d_run index lod a' _ Hfit Hflag eq_refl Hlen' Hlod Hplane)
    as (w & Hw' & Hget').
  apply lookup_lt_Some in Hold.
  rewrite list_lookup_insert_eq in Hw' by lia.
  assert (w = v) by congruence. subst w.
  exists index, l, old, (voxel_neq old v), a'.
  rewrite !getVoxelLod_delegates, setVoxelLod_delegates by exact Hface.
  repeat (split; [first [assumption | reflexivity]|]).
  exact (proj2 (neq_reports old v Hneq)).
Qed.

(** C3: [setVoxel] adds one to [m_numVoxelLargerZero] exactly when the
    interpolation of the sample is at least zero and every component of
    the position is in [[0, voxelLengthSurface)]; the sample stored
    before plays no part, so the counter never goes down and a second
    write of a non-empty sample at the same position counts again;
    [setVoxelLod] adds one to [m_numVoxelLargerZeroLod] exactly when the
    interpolation of the sample is at least zero.  The counters are below
    the largest [int32], where [++] does not wrap. *)
Theorem counters_bump_on_non_empty :
  voxelCount <= int32_max ->
  voxelCountLodAll <= int32_max ->
  (forall (a : accessor) (pos : vector3int32.t) (v : t_voxel),
      voxels_allocated a ->
      in_halo_range pos ->
      int32_min <= m_numVoxelLargerZero a < int32_max ->
      exists (changed : bool) (a' : accessor),
        setVoxel pos v a = Ok (changed, a') /\
        voxels_allocated a' /\
        m_numVoxelLargerZero a' = m_numVoxelLargerZero a + surface_bump pos v /\
        (m_numVoxelLargerZero a' = m_numVoxelLargerZero a + 1 <->
         0 <= getInterpolation v /\ in_surface pos = true) /\
        m_numVoxelLargerZero a <= m_numVoxelLargerZero a') /\
  (forall (a : accessor) (pos : vector3int32.t) (v w : t_voxel),
      voxels_allocated a ->
      in_halo_range pos ->
      in_surface pos = true ->
      0 <= getInterpolation v ->
      0 <= getInterpolation w ->
      int32_min <= m_numVoxelLargerZero a < int32_max - 1 ->
      exists (c1 c2 : bool) (a1 a2 : accessor),
        setVoxel pos v a = Ok (c1, a1) /\
        setVoxel pos w a1 = Ok (c2, a2) /\
        m_numVoxelLargerZero a2 = m_numVoxelLargerZero a + 2) /\
  (forall (a : accessor) (pos : vector3int32.t) (v : t_voxel) (lod : Z),
      lod_enabled a ->
      on_face pos lod ->
      int32_min <= m_numVoxelLargerZeroLod a < int32_max ->
      exists (changed : bool) (a' : accessor),
        setVoxelLod pos v lod a = Ok (changed, a') /\
        m_numVoxelLargerZeroLod a'
        = m_numVoxelLargerZeroLod a + lod_bump v /\
        (m_numVoxelLargerZeroLod a' = m_numVoxelLargerZeroLod a + 1 <->
         0 <= getInterpolation v)).
Proof.
  intros Hfit HfitLod.
  assert (Hsingle : forall (a : accessor) (pos : vector3int32.t) (v : t_voxel),
      voxels_allocated a ->
      in_halo_range pos ->
      int32_min <= m_numVoxelLargerZero a < int32_max ->
      exists (changed : bool) (a' : accessor),
        setVoxel pos v a = Ok (changed, a') /\
        voxels_allocated a' /\
        m_numVoxelLargerZero a' = m_numVoxelLargerZero a + surface_bump pos v).
  { intros a pos v Halloc Hpos Hcount.
    destruct (setVoxel_run pos v a Hfit Halloc Hpos) as (old & Hold & Hset).
    eexists _, _. split; [exact Hset|]. split.
    - unfold voxels_allocated. cbn [m_voxels set_voxels].
      rewrite length_insert. exact Halloc.
    - cbn [m_numVoxelLargerZero set_voxels set_numVoxelLargerZero].
      unfold surface_bump.
      destruct ((0 <=? getInterpolation v) && in_surface pos);
        [apply add32_exact|]; lia. }
  split; [|split].
  - intros a pos v Halloc Hpos Hcount.
    destruct (Hsingle a pos v Halloc Hpos Hcount) as (c & a' & Hset & Ha' & Hn).
    exists c, a'. repeat (split; [assumption|]).
    rewrite Hn. unfold surface_bump.
    destruct (Z.leb_spec 0 (getInterpolation v)), (in_surface pos);
      cbn [andb]; (split; [split|]); intros; try lia; try tauto;
      try discriminate.
  - intros a pos v w Halloc Hpos Hsurf Hv Hw Hcount.
    destruct (Hsingle a pos v Halloc Hpos) as (c1 & a1 & Hset1 & Ha1 & Hn1);
      [lia|].
    assert (Hb : forall u, 0 <= getInterpolation u -> surface_bump pos u = 1).
    { intros u Hu. unfold surface_bump. rewrite Hsurf.
      destruct (Z.leb_spec 0 (getInterpolation u)); [reflexivity | lia]. }
    rewrite (Hb v Hv) in Hn1.
    destruct (Hsingle a1 pos w Ha1 Hpos) as (c2 & a2 & Hset2 & Ha2 & Hn2);
      [lia|].
    rewrite (Hb w Hw) in Hn2.
    exists c1, c2, a1, a2. repeat (split; [assumption|]). lia.
  - intros a pos v lod (Hflag & l & Hptr & Hlen) Hface Hcount.
    destruct (calculateCoordsLod_ok pos lod Hface) as [_ Hplane].
    assert (Hlod : 0 <= lod < 6) by (destruct Hface; assumption).
    destruct (setVoxelLod_2d_run _ v lod a l HfitLod Hflag Hptr Hlen Hlod Hplane)
      as (old & Hold & Hset).
    rewrite <- setVoxelLod_delegates in Hset by exact Hface.
    eexists _, _. split; [exact Hset|].
    cbn [m_numVoxelLargerZeroLod set_voxelsLod set_numVoxelLargerZeroLod].
    unfold lod_bump.
    destruct (Z.leb_spec 0 (getInterpolation v));
      [rewrite add32_exact by lia|]; (split; [|split]); intros; lia.
Qed.

(** *** Enabling and disabling level of detail *)

(** The array [setCalculateLod(true)] allocates. *)
Local Abbreviation fresh_lod :=
  (replicate (Z.to_nat (6 * voxelCountLod)) (voxel_default : t_voxel)).

Lemma setCalculateLod_unchanged (a : accessor) :
  setCalculateLod (m_calculateLod a) a = Ok (tt, a).
Proof.
  unfold setCalculateLod, mbind, M_bind, gets.
  rewrite eqb_reflx. reflexivity.
Qed.

Lemma setCalculateLod_enable (a : accessor) :
  m_calculateLod a = false ->
  m_voxelsLod a = None ->
  setCalculateLod true a
  = Ok (tt, set_voxelsLod (Some fresh_lod) (set_calculateLod true a)).
Proof.
  intros Hflag Hptr.
  unfold setCalculateLod, mbind, M_bind, gets, modify.
  rewrite Hflag. cbn [eqb m_calculateLod m_voxelsLod set_calculateLod].
  rewrite Hptr. reflexivity.
Qed.

Lemma setCalculateLod_enable_present (a : accessor) (l : list t_voxel) :
  m_calculateLod a = false ->
  m_voxelsLod a = Some l ->
  setCalculateLod true a = Err AssertionFailure.
Proof.
  intros Hflag Hptr.
  unfold setCalculateLod, mbind, M_bind, gets, modify.
  rewrite Hflag. cbn [eqb m_calculateLod m_voxelsLod set_calculateLod].
  rewrite Hptr. reflexivity.
Qed.

Lemma setCalculateLod_disable (a : accessor) :
  m_calculateLod a = true ->
  setCalculateLod false a
  = Ok (tt, set_voxelsLod None (set_calculateLod false a)).
Proof.
  intros Hflag.
  unfold setCalculateLod, mbind, M_bind, gets, modify.
  rewrite Hflag. reflexivity.
Qed.

(** Every successful [setCalculateLod] ends in one of three ways. *)
Lemma setCalculateLod_Ok (lod : bool) (a a' : accessor) (u : unit) :
  setCalculateLod lod a = Ok (u, a') ->
  (lod = m_calculateLod a /\ a' = a) \/
  (lod = true /\ m_calculateLod a = false /\ m_voxelsLod a = None /\
   a' = set_voxelsLod (Some fresh_lod) (set_calculateLod true a)) \/
  (lod = false /\ m_calculateLod a = true /\
   a' = set_voxelsLod None (set_calculateLod false a)).
Proof.
  destruct lod, (m_calculateLod a) eqn:Hflag.
  - rewrite <- Hflag at 1. rewrite setCalculateLod_unchanged.
    intros Heq. left. split; congruence.
  - destruct (m_voxelsLod a) as [l|] eqn:Hptr.
    + rewrite (setCalculateLod_enable_present a l Hflag Hptr). discriminate.
    + rewrite (setCalculateLod_enable a Hflag Hptr).
      intros Heq. right. left. repeat split; congruence.
  - rewrite (setCalculateLod_disable a Hflag).
    intros Heq. right. right. repeat split; congruence.
  - rewrite <- Hflag at 1. rewrite setCalculateLod_unchanged.
    intros Heq. left. split; congruence.
Qed.

Lemma setCalculateLod_keeps_consistent (lod : bool) (a a' : accessor) (u : unit) :
  lod_consistent a ->
  setCalculateLod lod a = Ok (u, a') ->
  lod_consistent a'.
Proof.
  intros Hinv Hrun.
  destruct (setCalculateLod_Ok lod a a' u Hrun)
    as [[_ ->] | [(_ & _ & _ & ->) | (_ & _ & ->)]];
    [exact Hinv | |];
    unfold lod_consistent;
    cbn [m_voxelsLod m_calculateLod set_voxelsLod set_calculateLod].
  - split; [reflexivity | eauto].
  - split; [intros [? [=]] | discriminate].
Qed.

(** C10: [setCalculateLod] never touches [m_numVoxelLargerZeroLod];
    disabling drops the array, enabling again allocates a fresh
    value-initialised one, and [getNumVoxelLargerZeroLod] still returns
    the count from before, until [setNumVoxelLargerZeroLod] replaces it. *)
Theorem disable_enable_keeps_lod_count (a : accessor) :
  m_calculateLod a = true ->
  (forall (lod : bool) (b b' : accessor) (u : unit),
      setCalculateLod lod b = Ok (u, b') ->
      m_numVoxelLargerZeroLod b' = m_numVoxelLargerZeroLod b) /\
  exists a1 a2 : accessor,
    setCalculateLod false a = Ok (tt, a1) /\
    m_voxelsLod a1 = None /\
    getNumVoxelLargerZeroLod a1 = Ok (m_numVoxelLargerZeroLod a, a1) /\
    setCalculateLod true a1 = Ok (tt, a2) /\
    m_voxelsLod a2 = Some fresh_lod /\
    getNumVoxelLargerZeroLod a2 = Ok (m_numVoxelLargerZeroLod a, a2) /\
    forall n : Z,
      exists a3 : accessor,
        setNumVoxelLargerZeroLod n a2 = Ok (tt, a3) /\
        getNumVoxelLargerZeroLod a3 = Ok (n, a3).
Proof.
  intros Hflag. split.
  - intros lod b b' u Hrun.
    destruct (setCalculateLod_Ok lod b b' u Hrun)
      as [[_ ->] | [(_ & _ & _ & ->) | (_ & _ & ->)]]; reflexivity.
  - eexists _, _.
    split; [apply setCalculateLod_disable; exact Hflag|].
    split; [reflexivity|]. split; [reflexivity|].
    split; [apply setCalculateLod_enable; reflexivity|].
    split; [reflexivity|]. split; [reflexivity|].
    intros n. eexists. split; reflexivity.
Qed.

(** *** The handle is non-null iff the flag is set *)

Lemma deref_voxelsLod_Ok (a a' : accessor) (l : list t_voxel) :
  deref_voxelsLod a = Ok (l, a') -> m_voxelsLod a = Some l /\ a' = a.
Proof.
  unfold deref_voxelsLod. destruct (m_voxelsLod a); [|discriminate].
  intros Heq. split; congruence.
Qed.

(** After [*m_voxelsLod] the handle is known to be non-null. *)
Lemma keeps_after_deref {A} (k : list t_voxel -> M accessor A) :
  (forall l, keeps lod_present (k l)) ->
  keeps lod_consistent (deref_voxelsLod ≫= k).
Proof.
  intros Hk s s' r Hinv Hrun.
  apply bind_Ok in Hrun. destruct Hrun as (l & s1 & Hderef & Hrun).
  apply deref_voxelsLod_Ok in Hderef. destruct Hderef as [Hptr ->].
  assert (Hpresent : lod_present s) by (split; [exact Hinv | eauto]).
  destruct (Hk l s s' r Hpresent Hrun) as [Hinv' _]. exact Hinv'.
Qed.

(** Overwriting the pointee of a non-null handle. *)
Lemma set_voxelsLod_present (l : list t_voxel) (a : accessor) :
  lod_present a -> lod_present (set_voxelsLod (Some l) a).
Proof.
  unfold lod_present, lod_consistent.
  cbn [m_voxelsLod m_calculateLod set_voxelsLod].
  intros [Hinv Hsome]. split; [|eauto]. split; [|eauto].
  intros _. apply Hinv. exact Hsome.
Qed.

Lemma set_voxels_consistent (v : list t_voxel) (a : accessor) :
  lod_consistent a -> lod_consistent (set_voxels v a).
Proof. intros Hinv. exact Hinv. Qed.

Lemma set_numVoxelLargerZero_consistent (n : Z) (a : accessor) :
  lod_consistent a -> lod_consistent (set_numVoxelLargerZero n a).
Proof. intros Hinv. exact Hinv. Qed.

Lemma set_numVoxelLargerZeroLod_consistent (n : Z) (a : accessor) :
  lod_consistent a -> lod_consistent (set_numVoxelLargerZeroLod n a).
Proof. intros Hinv. exact Hinv. Qed.

Lemma keeps_assert_voxel_pos (P : accessor -> Prop) (pos : vector3int32.t) :
  keeps P (assert_voxel_pos pos).
Proof.
  intros s s' r HP Hrun. apply assert_voxel_pos_pure in Hrun. subst. exact HP.
Qed.

Lemma keeps_setCalculateLod (lod : bool) :
  keeps lod_consistent (setCalculateLod lod).
Proof.
  intros s s' r Hinv Hrun. exact (setCalculateLod_keeps_consistent _ _ _ _ Hinv Hrun).
Qed.

Local Hint Resolve set_voxels_consistent set_numVoxelLargerZero_consistent
  set_numVoxelLargerZeroLod_consistent keeps_assert_voxel_pos
  keeps_setCalculateLod keeps_after_deref set_voxelsLod_present : keeps.

Lemma keeps_setVoxel (pos : vector3int32.t) (toSet : t_voxel) :
  keeps lod_consistent (setVoxel pos toSet).
Proof. unfold setVoxel. cbv zeta. eauto 12 with keeps. Qed.

Lemma keeps_getVoxel (pos : vector3int32.t) :
  keeps lod_consistent (getVoxel pos).
Proof. unfold getVoxel. cbv zeta. eauto 12 with keeps. Qed.

Lemma keeps_setVoxelLod_2d (index : vector2int32.t) (toSet : t_voxel) (lod : Z) :
  keeps lod_consistent (setVoxelLod_2d index toSet lod).
Proof. unfold setVoxelLod_2d. cbv zeta. eauto 20 with keeps. Qed.

Lemma keeps_getVoxelLod_2d (index : vector2int32.t) (lod : Z) :
  keeps lod_consistent (getVoxelLod_2d index lod).
Proof. unfold getVoxelLod_2d. eauto 20 with keeps. Qed.

Lemma on_self_Ok {A} (m : M accessor A) (s s' : archive * accessor) (r : A) :
  on_self m s = Ok (r, s') -> m (snd s) = Ok (r, snd s') /\ fst s' = fst s.
Proof.
  unfold on_self. destruct s as [ar a]; cbn [fst snd].
  destruct (m a) as [[x a1]|e]; [|discriminate].
  intros Heq. injection Heq as Hr Hs'. subst r s'.
  split; reflexivity.
Qed.

Lemma keeps_on_self {A} (Q : accessor -> Prop) (m : M accessor A) :
  keeps Q m -> keeps (on_object Q) (on_self m).
Proof.
  unfold on_object. intros Hm s s' r HQ Hrun.
  apply on_self_Ok in Hrun. destruct Hrun as [Hrun _].
  exact (Hm _ _ _ HQ Hrun).
Qed.

Lemma keeps_archive_put (Q : accessor -> Prop) (name : string)
    (v : archive_value) :
  keeps (on_object Q) (archive_put name v).
Proof.
  unfold on_object, archive_put. intros [ar a] s' r HQ Hrun.
  apply modify_Ok in Hrun. subst s'. exact HQ.
Qed.

Lemma keeps_archive_get (Q : accessor -> Prop) (name : string) :
  keeps (on_object Q) (archive_get name).
Proof.
  unfold on_object, archive_get. intros [ar a] s' r HQ.
  destruct ar as [|[n v] rest]; [discriminate|].
  destruct (String.eqb n name); [|discriminate].
  intros Heq. injection Heq as _ Hs'. subst s'. exact HQ.
Qed.

Local Hint Resolve keeps_on_self keeps_archive_put keeps_archive_get : keeps.

Lemma keeps_archive_amp (Q : accessor -> Prop) (fmt : format) (name : string)
    (read_field : M accessor archive_value)
    (write_field : archive_value -> M accessor unit) :
  keeps Q read_field ->
  (forall v, keeps Q (write_field v)) ->
  keeps (on_object Q) (archive_amp fmt name read_field write_field).
Proof. intros Hread Hwrite. destruct fmt; cbn [archive_amp]; eauto with keeps. Qed.

Lemma keeps_saveLoad (fmt : format) :
  keeps (on_object lod_consistent) (saveLoad fmt).
Proof. destruct fmt; unfold saveLoad, save, load; eauto 10 with keeps. Qed.

Local Hint Resolve keeps_archive_amp keeps_saveLoad : keeps.

Lemma keeps_serialize (fmt : format) :
  keeps (on_object lod_consistent) (serialize fmt).
Proof.
  unfold serialize.
  repeat first
    [ solve [eauto with keeps]
    | apply keeps_after_deref; intros
    | apply keeps_bind; [|intros]
    | apply keeps_if
    | apply keeps_archive_amp; [|intros] ].
Qed.

Lemma keeps_invoke (c : call) : keeps lod_consistent (invoke c).
Proof.
  destruct c; cbn [invoke];
    unfold setVoxelLod, getVoxelLod, isEmpty, isFull, getCalculateLod,
      getNumVoxelLargerZero, getNumVoxelLargerZeroLod, getVoxelArray,
      getVoxelArrayLod, setNumVoxelLargerZero, setNumVoxelLargerZeroLod.
  all: try solve [eauto 10 using keeps_setVoxel, keeps_getVoxel,
                    keeps_setVoxelLod_2d, keeps_getVoxelLod_2d with keeps].
  - (* through the pointer of getVoxelArrayLod *)
    intros s s' r Hinv Hrun.
    apply bind_Ok in Hrun. destruct Hrun as (p & s1 & Hget & Hrun).
    apply gets_Ok in Hget. destruct Hget as [-> ->].
    destruct (m_voxelsLod s) as [l|] eqn:Hptr.
    + apply modify_Ok in Hrun. subst s'.
      apply set_voxelsLod_present. split; [exact Hinv | eauto].
    + apply mret_Ok in Hrun. destruct Hrun as [_ ->]. exact Hinv.
  - (* serialize *)
    intros s s' r Hinv Hrun.
    destruct (serialize fmt (readWrite, s)) as [[u [ar a']]|e] eqn:Hser;
      [|discriminate].
    injection Hrun as _ Hs'. subst s'.
    exact (keeps_serialize fmt (readWrite, s) (ar, a') u Hinv Hser).
Qed.

(** C5: [setCalculateLod] with the current value of the flag does
    nothing, so a second call with the same argument does nothing;
    enabling allocates [6*voxelCountLod] value-initialised samples and
    asserts that there was no array; disabling drops the array; and every
    operation keeps the handle non-null exactly when the flag is set. *)
Theorem setCalculateLod_lifecycle :
  (forall a : accessor, setCalculateLod (m_calculateLod a) a = Ok (tt, a)) /\
  (forall (lod : bool) (a a1 : accessor),
      setCalculateLod lod a = Ok (tt, a1) ->
      setCalculateLod lod a1 = Ok (tt, a1)) /\
  (forall a : accessor,
      m_calculateLod a = false ->
      m_voxelsLod a = None ->
      setCalculateLod true a
      = Ok (tt, set_voxelsLod (Some fresh_lod) (set_calculateLod true a)) /\
      length fresh_lod = Z.to_nat (6 * voxelCountLod) /\
      (forall v : t_voxel, v ∈ fresh_lod -> v = voxel_default)) /\
  (forall (a : accessor) (l : list t_voxel),
      m_calculateLod a = false ->
      m_voxelsLod a = Some l ->
      setCalculateLod true a = Err AssertionFailure) /\
  (forall a : accessor,
      m_calculateLod a = true ->
      setCalculateLod false a
      = Ok (tt, set_voxelsLod None (set_calculateLod false a))) /\
  lod_consistent create /\
  (forall (c : call) (a a' : accessor) (u : unit),
      lod_consistent a -> invoke c a = Ok (u, a') -> lod_consistent a').
Proof.
  split; [exact setCalculateLod_unchanged|].
  split.
  { intros lod a a1 Hrun.
    assert (Hflag : m_calculateLod a1 = lod).
    { destruct (setCalculateLod_Ok lod a a1 tt Hrun)
        as [[-> ->] | [(-> & _ & _ & ->) | (-> & _ & ->)]]; reflexivity. }
    rewrite <- Hflag. apply setCalculateLod_unchanged. }
  split.
  { intros a Hflag Hptr.
    split; [exact (setCalculateLod_enable a Hflag Hptr)|].
    split; [apply length_replicate|].
    intros v Hv. apply elem_of_replicate in Hv. tauto. }
  split; [exact setCalculateLod_enable_present|].
  split; [exact setCalculateLod_disable|].
  split.
  { unfold lod_consistent, create. cbn [m_voxelsLod m_calculateLod].
    split; [intros [? [=]] | discriminate]. }
  intros c a a' u Hinv Hrun. exact (keeps_invoke c a a' u Hinv Hrun).
Qed.

(** *** Serialization *)

Lemma consistent_cases (a : accessor) :
  lod_consistent a ->
  (m_calculateLod a = true /\ exists l, m_voxelsLod a = Some l) \/
  (m_calculateLod a = false /\ m_voxelsLod a = None).
Proof.
  unfold lod_consistent. intros [Hsome Hflag].
  destruct (m_calculateLod a), (m_voxelsLod a) as [l|].
  - left. eauto.
  - destruct (Hflag eq_refl) as [l [=]].
  - specialize (Hsome (ex_intro _ l eq_refl)). discriminate.
  - right. split; reflexivity.
Qed.

Lemma serialize_saving (a : accessor) :
  lod_consistent a ->
  serialize Saving ([], a) = Ok (tt, (archived_header a ++ archived_payload a, a)).
Proof.
  intros Hinv. unfold archived_header, archived_payload.
  destruct (consistent_cases a Hinv) as [(Hflag & l & Hptr) | (Hflag & Hptr)];
    destruct a as [v p f n1 n2];
    cbn [m_calculateLod m_voxelsLod] in Hflag, Hptr; subst f p;
    reflexivity.
Qed.

Lemma load_run (b : bool) (c : accessor) (rest : archive) :
  load (("calculateLod"%string, AvBool b) :: rest, c)
  = on_self (setCalculateLod b) (rest, c).
Proof. reflexivity. Qed.

Lemma serialize_loading (a : accessor) (rest : archive) :
  lod_consistent a ->
  serialize Loading ((archived_header a ++ archived_payload a) ++ rest, create)
  = Ok (tt, (rest, a)).
Proof.
  intros Hinv. unfold archived_header, archived_payload.
  destruct (consistent_cases a Hinv) as [(Hflag & l & Hptr) | (Hflag & Hptr)];
    destruct a as [v p f n1 n2];
    cbn [m_calculateLod m_voxelsLod] in Hflag, Hptr; subst f p;
    reflexivity.
Qed.

(** C8: a state saved by [serialize] and loaded by [serialize] into a
    freshly created accessor is restored as it was: the flag, the two
    counters (so the answers of [isEmpty] and [isFull]), the main array
    and, exactly when the flag is set, the level-of-detail array; while
    loading, [load] applies the flag with [setCalculateLod] and the voxel
    payload is still unread when it returns. *)
Theorem serialize_roundtrip (a : accessor) (rest : archive) :
  lod_consistent a ->
  exists (readWrite : archive) (a' : accessor),
    serialize Saving ([], a) = Ok (tt, (readWrite, a)) /\
    serialize Loading (readWrite ++ rest, create) = Ok (tt, (rest, a')) /\
    a' = a /\
    m_calculateLod a' = m_calculateLod a /\
    m_numVoxelLargerZero a' = m_numVoxelLargerZero a /\
    m_numVoxelLargerZeroLod a' = m_numVoxelLargerZeroLod a /\
    (exists e f : bool,
        isEmpty a = Ok (e, a) /\ isEmpty a' = Ok (e, a') /\
        isFull a = Ok (f, a) /\ isFull a' = Ok (f, a')) /\
    m_voxels a' = m_voxels a /\
    (m_calculateLod a = true ->
     exists l, m_voxelsLod a = Some l /\ m_voxelsLod a' = Some l) /\
    (m_calculateLod a = false -> m_voxelsLod a' = None) /\
    readWrite = archived_header a ++ archived_payload a /\
    (forall c : accessor,
        m_calculateLod c = false ->
        m_voxelsLod c = None ->
        exists c' : accessor,
          load (("calculateLod"%string, AvBool (m_calculateLod a))
                  :: archived_payload a ++ rest, c)
          = Ok (tt, (archived_payload a ++ rest, c')) /\
          setCalculateLod (m_calculateLod a) c = Ok (tt, c') /\
          m_calculateLod c' = m_calculateLod a /\
          (is_Some (m_voxelsLod c') <-> m_calculateLod a = true)).
Proof.
  intros Hinv.
  exists (archived_header a ++ archived_payload a), a.
  split; [exact (serialize_saving a Hinv)|].
  split; [exact (serialize_loading a rest Hinv)|].
  repeat (split; [reflexivity|]).
  split; [eexists _, _; repeat split|].
  split; [reflexivity|].
  destruct (consistent_cases a Hinv) as [(Hflag & l & Hptr) | (Hflag & Hptr)];
    rewrite Hflag, ?Hptr.
  - split; [eauto|]. split; [discriminate|]. split; [reflexivity|].
    intros c Hc Hcptr. eexists. rewrite load_run.
    unfold on_self. rewrite (setCalculateLod_enable c Hc Hcptr).
    repeat split; eauto.
  - split; [discriminate|]. split; [reflexivity|]. split; [reflexivity|].
    intros c Hc Hcptr. exists c. rewrite load_run.
    unfold on_self. rewrite <- Hc. rewrite setCalculateLod_unchanged.
    rewrite Hc, Hcptr. repeat split; try discriminate. intros [? [=]].
Qed.

End Properties.

(** ** Further properties *)

(** *** Failing runs, step by step *)

Lemma bind_Err {St A B} (m : M St A) (f : A -> M St B) (s : St) (e : fault) :
  (m ≫= f) s = Err e ->
  m s = Err e \/ exists x s1, m s = Ok (x, s1) /\ f x s1 = Err e.
Proof.
  unfold mbind, M_bind. destruct (m s) as [[x s1]|e1].
  - intros Hf. right. exists x, s1. split; [reflexivity | exact Hf].
  - intros Heq. left. injection Heq as ->. reflexivity.
Qed.

Lemma bind_run_Ok {St A B} (m : M St A) (f : A -> M St B) (s s1 : St) (x : A) :
  m s = Ok (x, s1) -> (m ≫= f) s = f x s1.
Proof. unfold mbind, M_bind. intros ->. reflexivity. Qed.

Lemma bind_run_Err {St A B} (m : M St A) (f : A -> M St B) (s : St) (e : fault) :
  m s = Err e -> (m ≫= f) s = Err e.
Proof. unfold mbind, M_bind. intros ->. reflexivity. Qed.

Lemma BASSERT_Err {St} (b : bool) (s : St) (e : fault) :
  BASSERT b s = Err e -> b = false /\ e = AssertionFailure.
Proof.
  unfold BASSERT, mret, M_ret, throw. destruct b; [discriminate|].
  intros Heq. split; [reflexivity | congruence].
Qed.

Lemma lift_result_Err {St A} (x : result A) (s : St) (e : fault) :
  lift_result x s = Err e -> x = Err e.
Proof.
  unfold lift_result, mret, M_ret, throw. destruct x as [y|e1]; [discriminate|].
  congruence.
Qed.

(** Two digits in base [h] determine the number. *)
Lemma digits_unique (h a b a' b' : Z) :
  0 <= b < h -> 0 <= b' < h -> a * h + b = a' * h + b' -> a = a' /\ b = b'.
Proof.
  intros Hb Hb' Heq.
  assert (Ha : a = a') by nia.
  subst a'. split; [reflexivity | lia].
Qed.

(** *** Faults, step by step *)

Lemma fails_within_bind {St A B} (E : fault -> Prop) (P : St -> Prop)
    (m : M St A) (f : A -> M St B) :
  fails_within E P m -> keeps P m -> (forall x, fails_within E P (f x)) ->
  fails_within E P (m ≫= f).
Proof.
  intros Hm Hkeep Hf s e HP Hrun.
  apply bind_Err in Hrun. destruct Hrun as [Hrun | (x & s1 & Hrun1 & Hrun2)].
  - exact (Hm s e HP Hrun).
  - exact (Hf x s1 e (Hkeep s s1 x HP Hrun1) Hrun2).
Qed.

Lemma fails_within_total {St A} (E : fault -> Prop) (P : St -> Prop) (m : M St A) :
  (forall s, P s -> exists r s', m s = Ok (r, s')) -> fails_within E P m.
Proof.
  intros Htotal s e HP Hrun. destruct (Htotal s HP) as (r & s' & Hok).
  rewrite Hok in Hrun. discriminate.
Qed.

Lemma fails_within_gets {St A} (E : fault -> Prop) (P : St -> Prop) (f : St -> A) :
  fails_within E P (gets f).
Proof. apply fails_within_total. intros s _. eexists _, _. reflexivity. Qed.

Lemma fails_within_modify {St} (E : fault -> Prop) (P : St -> Prop) (f : St -> St) :
  fails_within E P (modify f).
Proof. apply fails_within_total. intros s _. eexists _, _. reflexivity. Qed.

Lemma fails_within_mret {St A} (E : fault -> Prop) (P : St -> Prop) (x : A) :
  fails_within E P (mret x : M St A).
Proof. apply fails_within_total. intros s _. eexists _, _. reflexivity. Qed.

Lemma fails_within_lift_result {St A} (E : fault -> Prop) (P : St -> Prop)
    (x : result A) :
  (forall e, x = Err e -> E e) -> fails_within E P (lift_result x : M St A).
Proof. intros Hx s e _ Hrun. apply lift_result_Err in Hrun. exact (Hx e Hrun). Qed.

Lemma fails_within_BASSERT {St} (E : fault -> Prop) (P : St -> Prop) (b : bool) :
  E AssertionFailure -> fails_within E P (BASSERT b : M St unit).
Proof.
  intros HE s e _ Hrun. apply BASSERT_Err in Hrun. destruct Hrun as [_ ->].
  exact HE.
Qed.

Section FurtherProperties.
Context {cfg : config}.

Local Abbreviation t_voxel := t_data.

Local Abbreviation fresh_lod :=
  (replicate (Z.to_nat (6 * voxelCountLod)) (voxel_default : t_voxel)).

(** *** Positions outside the range *)

Lemma assert_voxel_pos_fail (pos : vector3int32.t) (a : accessor) :
  ~ in_halo_range pos -> assert_voxel_pos pos a = Err AssertionFailure.
Proof.
  unfold in_halo_range, assert_voxel_pos, BASSERT, mbind, M_bind, mret, M_ret,
    throw.
  intros Hout. rewrite !Z.geb_leb.
  destruct (Z.leb_spec (-1) (vector3int32.x pos)); [|reflexivity].
  destruct (Z.leb_spec (-1) (vector3int32.y pos)); [|reflexivity].
  destruct (Z.leb_spec (-1) (vector3int32.z pos)); [|reflexivity].
  destruct (Z.ltb_spec (vector3int32.x pos) (voxelLengthWithNormalCorrection - 1));
    [|reflexivity].
  destruct (Z.ltb_spec (vector3int32.y pos) (voxelLengthWithNormalCorrection - 1));
    [|reflexivity].
  destruct (Z.ltb_spec (vector3int32.z pos) (voxelLengthWithNormalCorrection - 1));
    [|reflexivity].
  exfalso. apply Hout. lia.
Qed.

Lemma assert_voxel_pos_Ok (pos : vector3int32.t) (a a' : accessor) (u : unit) :
  assert_voxel_pos pos a = Ok (u, a') -> in_halo_range pos.
Proof.
  intros Hrun.
  assert (Hdec : in_halo_range pos \/ ~ in_halo_range pos)
    by (unfold in_halo_range; lia).
  destruct Hdec as [Hin | Hout]; [exact Hin|].
  rewrite (assert_voxel_pos_fail pos a Hout) in Hrun. discriminate.
Qed.

(** X1: [setVoxel] and [getVoxel] at a position with a component outside
    [[-1, voxelLengthWithNormalCorrection-2]] fail their assertion,
    whatever the state; so a run that succeeds was at a position in the
    range. *)
Theorem out_of_range_asserts
    (pos : vector3int32.t) (v : t_voxel) (a : accessor) :
  (~ in_halo_range pos ->
   setVoxel pos v a = Err AssertionFailure /\
   getVoxel pos a = Err AssertionFailure) /\
  (forall (changed : bool) (a' : accessor),
      setVoxel pos v a = Ok (changed, a') -> in_halo_range pos) /\
  (forall (r : t_voxel) (a' : accessor),
      getVoxel pos a = Ok (r, a') -> in_halo_range pos).
Proof.
  split; [|split].
  - intros Hout. split.
    + unfold setVoxel. apply bind_run_Err. exact (assert_voxel_pos_fail pos a Hout).
    + unfold getVoxel. apply bind_run_Err. exact (assert_voxel_pos_fail pos a Hout).
  - intros changed a' Hrun. unfold setVoxel in Hrun.
    apply bind_Ok in Hrun. destruct Hrun as (u & a1 & Hassert & _).
    exact (assert_voxel_pos_Ok pos a a1 u Hassert).
  - intros r a' Hrun. unfold getVoxel in Hrun.
    apply bind_Ok in Hrun. destruct Hrun as (u & a1 & Hassert & _).
    exact (assert_voxel_pos_Ok pos a a1 u Hassert).
Qed.

(** *** What a successful write did *)

Lemma vector_assign_Ok {A} (l l' : list A) (i : Z) (x : A) :
  vector_assign l i x = Ok l' ->
  0 <= i < Z.of_nat (length l) /\ l' = <[Z.to_nat i := x]> l.
Proof.
  unfold vector_assign.
  destruct (Z.ltb_spec i 0); [discriminate|].
  destruct (Z.leb_spec (Z.of_nat (length l)) i); [discriminate|].
  cbn [orb]. intros Heq. injection Heq as <-. split; [lia | reflexivity].
Qed.

Lemma setVoxel_Ok (pos : vector3int32.t) (toSet : t_voxel) (a a' : accessor)
    (changed : bool) :
  setVoxel pos toSet a = Ok (changed, a') ->
  in_halo_range pos /\
  0 <= voxel_index pos < Z.of_nat (length (m_voxels a)) /\
  exists oldValue,
    vector_at (m_voxels a) (voxel_index pos) = Ok oldValue /\
    changed = voxel_neq oldValue toSet /\
    a' = set_voxels (<[Z.to_nat (voxel_index pos) := toSet]> (m_voxels a))
           (set_numVoxelLargerZero
              (if (0 <=? getInterpolation toSet) && in_surface pos
               then add32 (m_numVoxelLargerZero a) 1
               else m_numVoxelLargerZero a) a).
Proof.
  unfold setVoxel. cbv zeta. intros Hrun.
  apply bind_Ok in Hrun. destruct Hrun as (u & a1 & Hassert & Hrun).
  pose proof (assert_voxel_pos_Ok pos a a1 u Hassert) as Hpos.
  apply assert_voxel_pos_pure in Hassert. subst a1.
  apply bind_Ok in Hrun. destruct Hrun as (u2 & a2 & Hbump & Hrun).
  rewrite <- andb_assoc, surface_test, Z.geb_leb in Hbump.
  apply bind_Ok in Hrun. destruct Hrun as (voxels & a3 & Hgets & Hrun).
  apply gets_Ok in Hgets. destruct Hgets as [-> ->].
  apply bind_Ok in Hrun. destruct Hrun as (old & a4 & Hat & Hrun).
  apply lift_result_Ok in Hat. destruct Hat as [Hat ->].
  apply bind_Ok in Hrun. destruct Hrun as (voxels' & a5 & Hassign & Hrun).
  apply lift_result_Ok in Hassign. destruct Hassign as [Hassign ->].
  apply vector_assign_Ok in Hassign. destruct Hassign as [Hbound ->].
  apply bind_Ok in Hrun. destruct Hrun as (u3 & a6 & Hmod & Hrun).
  apply modify_Ok in Hmod. subst a6.
  apply mret_Ok in Hrun. destruct Hrun as [-> ->].
  assert (Ha2 : a2 = set_numVoxelLargerZero
                       (if (0 <=? getInterpolation toSet) && in_surface pos
                        then add32 (m_numVoxelLargerZero a) 1
                        else m_numVoxelLargerZero a) a).
  { destruct ((0 <=? getInterpolation toSet) && in_surface pos).
    - apply modify_Ok in Hbump. exact Hbump.
    - apply mret_Ok in Hbump. destruct Hbump as [_ ->]. destruct a; reflexivity. }
  subst a2. cbn [m_voxels set_numVoxelLargerZero] in *.
  split; [exact Hpos|]. split; [exact Hbound|].
  exists old. repeat split; assumption.
Qed.

(** *** Distinct positions use distinct cells *)

Lemma voxel_index_formula_inj (p q : vector3int32.t) :
  in_halo_range p -> in_halo_range q ->
  voxel_index_formula p = voxel_index_formula q -> p = q.
Proof.
  unfold in_halo_range, voxel_index_formula.
  destruct p as [px py pz], q as [qx qy qz];
    cbn [vector3int32.x vector3int32.y vector3int32.z].
  set (h := voxelLengthWithNormalCorrection).
  intros (Hpx & Hpy & Hpz) (Hqx & Hqy & Hqz) Heq.
  rewrite !Z.pow_2_r in Heq.
  destruct (digits_unique h ((px + 1) * h + (py + 1)) (pz + 1)
              ((qx + 1) * h + (qy + 1)) (qz + 1)) as [Hhi Hz]; [lia | lia | lia |].
  destruct (digits_unique h (px + 1) (py + 1) (qx + 1) (qy + 1)) as [Hx Hy];
    [lia | lia | exact Hhi |].
  f_equal; lia.
Qed.

Lemma voxel_cells_distinct (p q : vector3int32.t) :
  in_halo_range p -> in_halo_range q -> p <> q ->
  Z.to_nat (voxel_index_formula p) <> Z.to_nat (voxel_index_formula q).
Proof.
  intros Hp Hq Hne Heq. apply Hne.
  pose proof (voxel_index_formula_bounds p Hp).
  pose proof (voxel_index_formula_bounds q Hq).
  apply (voxel_index_formula_inj p q Hp Hq). lia.
Qed.

(** X2: [setVoxel] at one position of the range leaves the sample that
    [getVoxel] returns at every other position of the range as it was. *)
Theorem setVoxel_other_positions
    (a : accessor) (pos q : vector3int32.t) (v : t_voxel) :
  voxelCount <= int32_max ->
  voxels_allocated a ->
  in_halo_range pos ->
  in_halo_range q ->
  q <> pos ->
  exists (changed : bool) (a' : accessor) (w : t_voxel),
    setVoxel pos v a = Ok (changed, a') /\
    getVoxel q a = Ok (w, a) /\
    getVoxel q a' = Ok (w, a').
Proof.
  intros Hfit Halloc Hpos Hq Hne.
  destruct (setVoxel_run pos v a Hfit Halloc Hpos) as (old & Hold & Hset).
  match type of Hset with _ = Ok (_, ?s) => set (a' := s) in * end.
  assert (Halloc' : voxels_allocated a').
  { unfold voxels_allocated, a'. cbn [m_voxels set_voxels].
    rewrite length_insert. exact Halloc. }
  destruct (getVoxel_run q a Hfit Halloc Hq) as (w & Hw & Hget).
  destruct (getVoxel_run q a' Hfit Halloc' Hq) as (w' & Hw' & Hget').
  unfold a' in Hw'. cbn [m_voxels set_voxels] in Hw'.
  rewrite list_lookup_insert_ne in Hw'
    by (apply voxel_cells_distinct; auto).
  assert (w' = w) by congruence. subst w'.
  exists (voxel_neq old v), a', w. repeat split; assumption.
Qed.

(** X3: a successful [setVoxel] changes the main array at one index and
    possibly [m_numVoxelLargerZero], and nothing else: the size of the
    main array, the level-of-detail array, the flag and
    [m_numVoxelLargerZeroLod] stay as they were. *)
Theorem setVoxel_frame
    (pos : vector3int32.t) (v : t_voxel) (a a' : accessor) (changed : bool) :
  setVoxel pos v a = Ok (changed, a') ->
  length (m_voxels a') = length (m_voxels a) /\
  (forall i : nat,
      i <> Z.to_nat (voxel_index pos) -> m_voxels a' !! i = m_voxels a !! i) /\
  m_voxelsLod a' = m_voxelsLod a /\
  m_calculateLod a' = m_calculateLod a /\
  m_numVoxelLargerZeroLod a' = m_numVoxelLargerZeroLod a.
Proof.
  intros Hrun.
  destruct (setVoxel_Ok pos v a a' changed Hrun) as (_ & _ & old & _ & _ & ->).
  cbn [m_voxels m_voxelsLod m_calculateLod m_numVoxelLargerZeroLod set_voxels
       set_numVoxelLargerZero].
  split; [apply length_insert|].
  split; [intros i Hi; apply list_lookup_insert_ne; congruence|].
  repeat split; reflexivity.
Qed.

(** X4: writes at two distinct positions of the range commute: either
    order returns the same two results and ends in the same state. *)
Theorem setVoxel_commutes
    (a : accessor) (p q : vector3int32.t) (v w : t_voxel) :
  voxelCount <= int32_max ->
  voxels_allocated a ->
  in_halo_range p ->
  in_halo_range q ->
  p <> q ->
  exists (cp cq : bool) (a1 a2 b1 : accessor),
    setVoxel p v a = Ok (cp, a1) /\
    setVoxel q w a1 = Ok (cq, a2) /\
    setVoxel q w a = Ok (cq, b1) /\
    setVoxel p v b1 = Ok (cp, a2).
Proof.
  intros Hfit Halloc Hp Hq Hne.
  pose proof (voxel_cells_distinct p q Hp Hq Hne) as Hcells.
  destruct (setVoxel_run p v a Hfit Halloc Hp) as (oldp & Holdp & Hsetp).
  destruct (setVoxel_run q w a Hfit Halloc Hq) as (oldq & Holdq & Hsetq).
  match type of Hsetp with _ = Ok (_, ?s) => set (a1 := s) in * end.
  match type of Hsetq with _ = Ok (_, ?s) => set (b1 := s) in * end.
  assert (Halloc1 : voxels_allocated a1).
  { unfold voxels_allocated, a1. cbn [m_voxels set_voxels].
    rewrite length_insert. exact Halloc. }
  assert (Hallocb : voxels_allocated b1).
  { unfold voxels_allocated, b1. cbn [m_voxels set_voxels].
    rewrite length_insert. exact Halloc. }
  destruct (setVoxel_run q w a1 Hfit Halloc1 Hq) as (oldq' & Holdq' & Hsetq').
  destruct (setVoxel_run p v b1 Hfit Hallocb Hp) as (oldp' & Holdp' & Hsetp').
  unfold a1 in Holdq'. cbn [m_voxels set_voxels] in Holdq'.
  rewrite list_lookup_insert_ne in Holdq' by exact Hcells.
  unfold b1 in Holdp'. cbn [m_voxels set_voxels] in Holdp'.
  rewrite list_lookup_insert_ne in Holdp' by (intros Heq; apply Hcells; congruence).
  assert (oldq' = oldq) by congruence. subst oldq'.
  assert (oldp' = oldp) by congruence. subst oldp'.
  eexists _, _, a1, _, b1.
  split; [exact Hsetp|]. split; [exact Hsetq'|]. split; [exact Hsetq|].
  rewrite Hsetp'. f_equal. f_equal.
  unfold a1, b1.
  cbn [m_voxels m_numVoxelLargerZero set_voxels set_numVoxelLargerZero].
  rewrite (list_insert_insert_ne (m_voxels a)) by exact Hcells.
  destruct ((0 <=? getInterpolation v) && in_surface p),
    ((0 <=? getInterpolation w) && in_surface q); reflexivity.
Qed.

(** X5: writing the sample a cell already holds returns [false] and leaves
    the main array as it is; in particular the second of two equal writes
    reports no change. *)
Theorem setVoxel_same_sample
    (a : accessor) (pos : vector3int32.t) (v : t_voxel) :
  neq_is_inequality t_voxel ->
  voxelCount <= int32_max ->
  voxels_allocated a ->
  in_halo_range pos ->
  (getVoxel pos a = Ok (v, a) ->
   exists a' : accessor,
     setVoxel pos v a = Ok (false, a') /\ m_voxels a' = m_voxels a) /\
  (exists (c1 : bool) (a1 a2 : accessor),
      setVoxel pos v a = Ok (c1, a1) /\
      setVoxel pos v a1 = Ok (false, a2) /\
      m_voxels a2 = m_voxels a1).
Proof.
  intros Hneq Hfit Halloc Hpos.
  assert (Hsame : forall b : accessor,
             voxels_allocated b ->
             m_voxels b !! Z.to_nat (voxel_index_formula pos) = Some v ->
             exists b' : accessor,
               setVoxel pos v b = Ok (false, b') /\ m_voxels b' = m_voxels b).
  { intros b Hb Hcell.
    destruct (setVoxel_run pos v b Hfit Hb Hpos) as (old & Hold & Hset).
    assert (old = v) by congruence. subst old.
    assert (Hfalse : voxel_neq v v = false) by (apply Hneq; reflexivity).
    rewrite Hfalse in Hset.
    eexists. split; [exact Hset|].
    cbn [m_voxels set_voxels]. apply list_insert_id. exact Hcell. }
  split.
  - intros Hget.
    destruct (getVoxel_run pos a Hfit Halloc Hpos) as (w & Hw & Hget').
    assert (w = v) by congruence. subst w.
    exact (Hsame a Halloc Hw).
  - destruct (setVoxel_run pos v a Hfit Halloc Hpos) as (old & Hold & Hset).
    match type of Hset with _ = Ok (_, ?s) => set (a1 := s) in * end.
    assert (Halloc1 : voxels_allocated a1).
    { unfold voxels_allocated, a1. cbn [m_voxels set_voxels].
      rewrite length_insert. exact Halloc. }
    assert (Hcell : m_voxels a1 !! Z.to_nat (voxel_index_formula pos) = Some v).
    { unfold a1. cbn [m_voxels set_voxels].
      apply list_lookup_insert_eq. apply lookup_lt_Some in Hold. exact Hold. }
    destruct (Hsame a1 Halloc1 Hcell) as (a2 & Hset2 & Harr).
    exists (voxel_neq old v), a1, a2. repeat split; assumption.
Qed.

(** *** The projection, whatever the input *)

Lemma calculateCoordsLod_result (pos : vector3int32.t) (lod : Z) :
  match calculateCoordsLod pos lod with
  | Ok index => on_face pos lod /\ index = projectLodCoord_table pos lod
  | Err e => e = AssertionFailure
  end.
Proof.
  unfold calculateCoordsLod. cbv zeta.
  unfold check, mbind, result_bind, mret, result_ret.
  destruct pos as [px py pz];
    cbn [vector3int32.x vector3int32.y vector3int32.z].
  rewrite !Z.geb_leb.
  destruct (Z.leb_spec 0 lod); [|reflexivity].
  destruct (Z.ltb_spec lod 6); [|reflexivity].
  destruct (Z.leb_spec 0 px); [|reflexivity].
  destruct (Z.leb_spec 0 py); [|reflexivity].
  destruct (Z.leb_spec 0 pz); [|reflexivity].
  destruct (Z.ltb_spec px voxelLengthLod); [|reflexivity].
  destruct (Z.ltb_spec py voxelLengthLod); [|reflexivity].
  destruct (Z.ltb_spec pz voxelLengthLod); [|reflexivity].
  destruct ((px =? 0) || (py =? 0) || (pz =? 0)); [|reflexivity].
  assert (Hcases : lod = 0 \/ lod = 1 \/ lod = 2 \/ lod = 3 \/ lod = 4 \/ lod = 5)
    by lia.
  unfold on_face, projectLodCoord_table;
    cbn [vector3int32.x vector3int32.y vector3int32.z].
  destruct Hcases as [-> | [-> | [-> | [-> | [-> | ->]]]]];
    cbn [Z.eqb Pos.eqb orb];
    match goal with
    | |- context [?c =? 0] => destruct (Z.eqb_spec c 0)
    end;
    first [reflexivity | split; [lia | reflexivity]].
Qed.

Lemma calculateCoordsLod_Ok (pos : vector3int32.t) (lod : Z)
    (index : vector2int32.t) :
  calculateCoordsLod pos lod = Ok index ->
  on_face pos lod /\ index = projectLodCoord_table pos lod.
Proof.
  intros Hrun. pose proof (calculateCoordsLod_result pos lod) as Hres.
  rewrite Hrun in Hres. exact Hres.
Qed.

Lemma calculateCoordsLod_Err (pos : vector3int32.t) (lod : Z) (e : fault) :
  calculateCoordsLod pos lod = Err e -> e = AssertionFailure.
Proof.
  intros Hrun. pose proof (calculateCoordsLod_result pos lod) as Hres.
  rewrite Hrun in Hres. exact Hres.
Qed.

(** X6: [calculateCoordsLod] returns a coordinate exactly for a face in
    [[0,6)] and a position inside the cube of edge [voxelLengthLod] on the
    zero-plane of that face; the coordinate then lies in the plane, and
    every other input fails an assertion. *)
Theorem calculateCoordsLod_defined (pos : vector3int32.t) (lod : Z) :
  (on_face pos lod ->
   exists index : vector2int32.t,
     calculateCoordsLod pos lod = Ok index /\ in_lod_plane index) /\
  (~ on_face pos lod -> calculateCoordsLod pos lod = Err AssertionFailure) /\
  (forall index : vector2int32.t,
      calculateCoordsLod pos lod = Ok index -> on_face pos lod).
Proof.
  split; [|split].
  - intros Hface. destruct (calculateCoordsLod_ok pos lod Hface) as [Hrun Hplane].
    eexists. split; [exact Hrun | exact Hplane].
  - intros Hout.
    destruct (calculateCoordsLod pos lod) as [index|e] eqn:Hrun.
    + exfalso. apply Hout. exact (proj1 (calculateCoordsLod_Ok pos lod index Hrun)).
    + f_equal. exact (calculateCoordsLod_Err pos lod e Hrun).
  - intros index Hrun. exact (proj1 (calculateCoordsLod_Ok pos lod index Hrun)).
Qed.

Lemma setVoxelLod_disabled
    (a : accessor) (pos : vector3int32.t) (v : t_voxel) (lod : Z) :
  m_calculateLod a = false -> setVoxelLod pos v lod a = Err AssertionFailure.
Proof.
  intros Hflag. unfold setVoxelLod.
  destruct (calculateCoordsLod pos lod) as [index|e] eqn:Hproj.
  - rewrite (bind_run_Ok _ _ a a index) by reflexivity.
    unfold setVoxelLod_2d, mbind, M_bind, BASSERT, gets, mret, M_ret, throw.
    destruct (vector2int32.ge index (vector2int32.splat 0)); [|reflexivity].
    destruct (vector2int32.lt index (vector2int32.splat voxelCountLod));
      [|reflexivity].
    cbv beta iota. rewrite Hflag. reflexivity.
  - apply calculateCoordsLod_Err in Hproj. subst e. reflexivity.
Qed.

Lemma getVoxelLod_disabled (a : accessor) (pos : vector3int32.t) (lod : Z) :
  m_calculateLod a = false -> getVoxelLod pos lod a = Err AssertionFailure.
Proof.
  intros Hflag. unfold getVoxelLod.
  destruct (calculateCoordsLod pos lod) as [index|e] eqn:Hproj.
  - rewrite (bind_run_Ok _ _ a a index) by reflexivity.
    unfold getVoxelLod_2d, mbind, M_bind, BASSERT, gets, mret, M_ret, throw.
    destruct (vector2int32.ge index (vector2int32.splat 0)); [|reflexivity].
    destruct (vector2int32.lt index (vector2int32.splat voxelCountLod));
      [|reflexivity].
    cbv beta iota. rewrite Hflag. reflexivity.
  - apply calculateCoordsLod_Err in Hproj. subst e. reflexivity.
Qed.

(** X7: while level of detail is disabled, [setVoxelLod] and [getVoxelLod]
    fail an assertion for every position, sample and face. *)
Theorem lod_access_while_disabled
    (a : accessor) (pos : vector3int32.t) (v : t_voxel) (lod : Z) :
  m_calculateLod a = false ->
  setVoxelLod pos v lod a = Err AssertionFailure /\
  getVoxelLod pos lod a = Err AssertionFailure.
Proof.
  intros Hflag. split.
  - exact (setVoxelLod_disabled a pos v lod Hflag).
  - exact (getVoxelLod_disabled a pos lod Hflag).
Qed.

(** *** Distinct face positions use distinct cells *)

Lemma lod_index_formula_inj (i j : vector2int32.t) (lod lod' : Z) :
  in_lod_plane i -> in_lod_plane j ->
  lod_index_formula i lod = lod_index_formula j lod' ->
  i = j /\ lod = lod'.
Proof.
  unfold in_lod_plane, lod_index_formula, voxelCountLod.
  destruct i as [ix iy], j as [jx jy]; cbn [vector2int32.x vector2int32.y].
  set (l := voxelLengthLod).
  intros (Hix & Hiy) (Hjx & Hjy) Heq.
  destruct (digits_unique l (lod * l + ix) iy (lod' * l + jx) jy) as [Hhi Hy];
    [lia | lia | lia |].
  destruct (digits_unique l lod ix lod' jx) as [Hlod Hx];
    [lia | lia | exact Hhi |].
  subst. split; reflexivity.
Qed.

Lemma projection_inj (p q : vector3int32.t) (lod : Z) :
  on_face p lod -> on_face q lod ->
  projectLodCoord_table p lod = projectLodCoord_table q lod -> p = q.
Proof.
  unfold on_face, projectLodCoord_table.
  destruct p as [px py pz], q as [qx qy qz];
    cbn [vector3int32.x vector3int32.y vector3int32.z].
  intros (Hlod & _ & _ & _ & Hpx & Hpy & Hpz) (_ & _ & _ & _ & Hqx & Hqy & Hqz).
  assert (Hcases : lod = 0 \/ lod = 1 \/ lod = 2 \/ lod = 3 \/ lod = 4 \/ lod = 5)
    by lia.
  destruct Hcases as [-> | [-> | [-> | [-> | [-> | ->]]]]];
    cbn [Z.eqb Pos.eqb orb]; intros [= H1 H2]; f_equal; lia.
Qed.

Lemma lod_cells_distinct (p q : vector3int32.t) (lod lod' : Z) :
  on_face p lod -> on_face q lod' ->
  p <> q \/ lod <> lod' ->
  Z.to_nat (lod_index_formula (projectLodCoord_table p lod) lod)
  <> Z.to_nat (lod_index_formula (projectLodCoord_table q lod') lod').
Proof.
  intros Hp Hq Hne Heq.
  destruct (calculateCoordsLod_ok p lod Hp) as [_ Hplane].
  destruct (calculateCoordsLod_ok q lod' Hq) as [_ Hplane'].
  assert (Hlod : 0 <= lod < 6) by (destruct Hp; assumption).
  assert (Hlod' : 0 <= lod' < 6) by (destruct Hq; assumption).
  pose proof (lod_index_formula_bounds _ lod Hlod Hplane).
  pose proof (lod_index_formula_bounds _ lod' Hlod' Hplane').
  destruct (lod_index_formula_inj _ _ lod lod' Hplane Hplane') as [Hidx <-];
    [lia|].
  destruct Hne as [Hne | Hne]; [|congruence].
  apply Hne. exact (projection_inj p q lod Hp Hq Hidx).
Qed.

(** X8: with level of detail enabled, [setVoxelLod] at one position of
    one face leaves the sample that [getVoxelLod] returns at every other
    position of that face, and at every position of the other faces, as it
    was. *)
Theorem setVoxelLod_other_positions
    (a : accessor) (p q : vector3int32.t) (v : t_voxel) (lod lod' : Z) :
  voxelCountLodAll <= int32_max ->
  lod_enabled a ->
  on_face p lod ->
  on_face q lod' ->
  p <> q \/ lod <> lod' ->
  exists (changed : bool) (a' : accessor) (w : t_voxel),
    setVoxelLod p v lod a = Ok (changed, a') /\
    getVoxelLod q lod' a = Ok (w, a) /\
    getVoxelLod q lod' a' = Ok (w, a').
Proof.
  intros Hfit (Hflag & l & Hptr & Hlen) Hp Hq Hne.
  destruct (calculateCoordsLod_ok p lod Hp) as [_ Hplane].
  destruct (calculateCoordsLod_ok q lod' Hq) as [_ Hplane'].
  assert (Hlod : 0 <= lod < 6) by (destruct Hp; assumption).
  assert (Hlod' : 0 <= lod' < 6) by (destruct Hq; assumption).
  destruct (setVoxelLod_2d_run _ v lod a l Hfit Hflag Hptr Hlen Hlod Hplane)
    as (old & Hold & Hset).
  match type of Hset with _ = Ok (_, ?s) => set (a' := s) in * end.
  destruct (getVoxelLod_2d_run _ lod' a l Hfit Hflag Hptr Hlen Hlod' Hplane')
    as (w & Hw & Hget).
  assert (Hlen' : Z.of_nat
                    (length (<[Z.to_nat (lod_index_formula
                                          (projectLodCoord_table p lod) lod)
                               := v]> l))
                  = voxelCountLodAll)
    by (rewrite length_insert; exact Hlen).
  destruct (getVoxelLod_2d_run _ lod' a' _ Hfit Hflag eq_refl Hlen' Hlod' Hplane')
    as (w' & Hw' & Hget').
  rewrite list_lookup_insert_ne in Hw' by (apply lod_cells_distinct; assumption).
  assert (w' = w) by congruence. subst w'.
  exists (voxel_neq old v), a', w.
  rewrite setVoxelLod_delegates by exact Hp.
  rewrite !getVoxelLod_delegates by exact Hq.
  repeat split; assumption.
Qed.

(** *** A fresh accessor *)

Lemma create_allocated :
  0 <= voxelCount -> voxels_allocated create.
Proof.
  intros Hcount. unfold voxels_allocated, create. cbn [m_voxels].
  rewrite length_replicate. lia.
Qed.

Lemma fresh_lod_length :
  Z.of_nat (length fresh_lod) = voxelCountLodAll.
Proof.
  rewrite length_replicate. unfold voxelCountLodAll, voxelCountLod.
  assert (0 <= voxelLengthLod * voxelLengthLod) by nia. lia.
Qed.

Lemma halo_range_inhabited (pos : vector3int32.t) :
  in_halo_range pos -> 0 < voxelCount.
Proof.
  unfold in_halo_range, voxelCount. intros (Hx & _ & _).
  assert (1 <= voxelLengthWithNormalCorrection) by lia. nia.
Qed.

(** X9: right after construction [getVoxel] returns the value-initialised
    sample at every position of the range, and right after the first
    [setCalculateLod(true)] so does [getVoxelLod] at every position of
    every face. *)
Theorem fresh_arrays_read_default :
  (voxelCount <= int32_max ->
   forall pos : vector3int32.t,
     in_halo_range pos -> getVoxel pos create = Ok (voxel_default, create)) /\
  (voxelCountLodAll <= int32_max ->
   exists a1 : accessor,
     setCalculateLod true create = Ok (tt, a1) /\
     forall (pos : vector3int32.t) (lod : Z),
       on_face pos lod -> getVoxelLod pos lod a1 = Ok (voxel_default, a1)).
Proof.
  split.
  - intros Hfit pos Hpos.
    assert (Halloc : voxels_allocated create)
      by (apply create_allocated; pose proof (halo_range_inhabited pos Hpos); lia).
    destruct (getVoxel_run pos create Hfit Halloc Hpos) as (w & Hw & Hget).
    unfold create in Hw at 1. cbn [m_voxels] in Hw.
    apply lookup_replicate in Hw. destruct Hw as [-> _]. exact Hget.
  - intros Hfit. eexists. split; [apply setCalculateLod_enable; reflexivity|].
    intros pos lod Hface.
    destruct (calculateCoordsLod_ok pos lod Hface) as [_ Hplane].
    assert (Hlod : 0 <= lod < 6) by (destruct Hface; assumption).
    rewrite getVoxelLod_delegates by exact Hface.
    match goal with |- getVoxelLod_2d _ _ ?s = _ => set (a1 := s) end.
    destruct (getVoxelLod_2d_run _ lod a1 fresh_lod Hfit eq_refl eq_refl
                fresh_lod_length Hlod Hplane) as (w & Hw & Hget).
    apply lookup_replicate in Hw. destruct Hw as [-> _]. exact Hget.
Qed.

(** X10: on an accessor without level of detail, enabling and then
    disabling it gives back the state from before. *)
Theorem enable_disable_identity (a : accessor) :
  m_calculateLod a = false ->
  m_voxelsLod a = None ->
  (setCalculateLod true ;; setCalculateLod false) a = Ok (tt, a).
Proof.
  intros Hflag Hptr.
  rewrite (bind_run_Ok _ _ a _ tt (setCalculateLod_enable a Hflag Hptr)).
  rewrite setCalculateLod_disable by reflexivity.
  destruct a as [v p f n1 n2]. cbn [m_calculateLod m_voxelsLod] in Hflag, Hptr.
  subst f p. reflexivity.
Qed.

(** *** A batch of writes *)

(** The main array after the writes of [xs], in their order. *)
Local Abbreviation written g h arr xs :=
  (foldl (fun (l : list t_voxel) x =>
            <[Z.to_nat (voxel_index_formula (g x)) := h x]> l) arr xs).

(** What the writes of [xs] add to the counter. *)
Local Abbreviation counted g h xs :=
  (foldr (fun x (n : Z) => surface_bump (g x) (h x) + n) 0 xs).

Lemma surface_bump_range (pos : vector3int32.t) (v : t_voxel) :
  0 <= surface_bump pos v <= 1.
Proof.
  unfold surface_bump.
  destruct ((0 <=? getInterpolation v) && in_surface pos); lia.
Qed.

Lemma counted_range {X} (g : X -> vector3int32.t) (h : X -> t_voxel) (xs : list X) :
  0 <= counted g h xs <= Z.of_nat (length xs).
Proof.
  induction xs as [|x xs IH]; cbn [foldr length]; [lia|].
  pose proof (surface_bump_range (g x) (h x)). lia.
Qed.

Lemma written_length {X} (g : X -> vector3int32.t) (h : X -> t_voxel)
    (xs : list X) (arr : list t_voxel) :
  length (written g h arr xs) = length arr.
Proof.
  revert arr. induction xs as [|x xs IH]; intros arr; cbn [foldl]; [reflexivity|].
  rewrite IH. apply length_insert.
Qed.

Lemma for_each_setVoxel_run {X} (g : X -> vector3int32.t) (h : X -> t_voxel)
    (xs : list X) (a : accessor) :
  voxelCount <= int32_max ->
  voxels_allocated a ->
  Forall (fun x => in_halo_range (g x)) xs ->
  int32_min <= m_numVoxelLargerZero a ->
  m_numVoxelLargerZero a + Z.of_nat (length xs) <= int32_max ->
  for_each (fun x => setVoxel (g x) (h x)) xs a
  = Ok (tt,
        set_voxels (written g h (m_voxels a) xs)
          (set_numVoxelLargerZero (m_numVoxelLargerZero a + counted g h xs) a)).
Proof.
  intros Hfit. revert a.
  induction xs as [|x xs IH]; intros a Halloc Hrange Hmin Hmax.
  - cbn [for_each foldl foldr]. unfold mret, M_ret.
    rewrite Z.add_0_r. destruct a; reflexivity.
  - apply Forall_cons in Hrange. destruct Hrange as [Hx Hrange].
    cbn [length] in Hmax. cbn [for_each foldl foldr].
    destruct (setVoxel_run (g x) (h x) a Hfit Halloc Hx) as (old & Hold & Hset).
    rewrite (bind_run_Ok _ _ _ _ _ Hset).
    match type of Hset with _ = Ok (_, ?s) => set (a1 := s) in * end.
    assert (Hcount : m_numVoxelLargerZero a1
                     = m_numVoxelLargerZero a + surface_bump (g x) (h x)).
    { unfold a1, surface_bump.
      cbn [m_numVoxelLargerZero set_voxels set_numVoxelLargerZero].
      destruct ((0 <=? getInterpolation (h x)) && in_surface (g x));
        [apply add32_exact|]; lia. }
    pose proof (surface_bump_range (g x) (h x)) as Hbump.
    rewrite IH; [| | exact Hrange | lia | lia].
    + rewrite Hcount, Z.add_assoc. reflexivity.
    + unfold voxels_allocated, a1. cbn [m_voxels set_voxels].
      rewrite length_insert. exact Halloc.
Qed.

(** X11: a batch of [setVoxel] calls at positions of the range succeeds
    and adds to [m_numVoxelLargerZero] the number of its writes that store
    a non-empty sample inside the surface region, each write counted,
    also when several hit one cell; nothing but the main array and that
    counter changes. *)
Theorem setVoxel_batch_counts
    (ws : list (vector3int32.t * t_voxel)) (a : accessor) :
  voxelCount <= int32_max ->
  voxels_allocated a ->
  Forall (fun w => in_halo_range (fst w)) ws ->
  int32_min <= m_numVoxelLargerZero a ->
  m_numVoxelLargerZero a + Z.of_nat (length ws) <= int32_max ->
  exists a' : accessor,
    for_each (fun w => setVoxel (fst w) (snd w)) ws a = Ok (tt, a') /\
    m_numVoxelLargerZero a' = m_numVoxelLargerZero a + counted_writes ws /\
    0 <= counted_writes ws <= Z.of_nat (length ws) /\
    voxels_allocated a' /\
    m_voxelsLod a' = m_voxelsLod a /\
    m_calculateLod a' = m_calculateLod a /\
    m_numVoxelLargerZeroLod a' = m_numVoxelLargerZeroLod a.
Proof.
  intros Hfit Halloc Hrange Hmin Hmax.
  eexists. split; [exact (for_each_setVoxel_run fst snd ws a Hfit Halloc Hrange Hmin Hmax)|].
  cbn [m_voxels m_voxelsLod m_calculateLod m_numVoxelLargerZero
       m_numVoxelLargerZeroLod set_voxels set_numVoxelLargerZero].
  split; [reflexivity|].
  split; [exact (counted_range fst snd ws)|].
  split.
  { unfold voxels_allocated. cbn [m_voxels set_voxels].
    rewrite written_length. exact Halloc. }
  repeat split; reflexivity.
Qed.

Lemma written_lookup_other {X} (g : X -> vector3int32.t) (h : X -> t_voxel)
    (xs : list X) (arr : list t_voxel) (q : vector3int32.t) :
  Forall (fun x => in_halo_range (g x)) xs ->
  in_halo_range q ->
  q ∉ g <$> xs ->
  written g h arr xs !! Z.to_nat (voxel_index_formula q)
  = arr !! Z.to_nat (voxel_index_formula q).
Proof.
  revert arr. induction xs as [|x xs IH]; intros arr Hrange Hq Hnotin;
    cbn [foldl]; [reflexivity|].
  apply Forall_cons in Hrange. destruct Hrange as [Hx Hrange].
  rewrite fmap_cons in Hnotin. apply not_elem_of_cons in Hnotin.
  destruct Hnotin as [Hne Hnotin].
  rewrite IH by assumption.
  apply list_lookup_insert_ne. apply voxel_cells_distinct; auto.
Qed.

Lemma written_lookup_self {X} (g : X -> vector3int32.t) (h : X -> t_voxel)
    (xs : list X) (arr : list t_voxel) (x : X) :
  Forall (fun y => in_halo_range (g y)) xs ->
  NoDup (g <$> xs) ->
  x ∈ xs ->
  (forall y, in_halo_range (g y) ->
             (Z.to_nat (voxel_index_formula (g y)) < length arr)%nat) ->
  written g h arr xs !! Z.to_nat (voxel_index_formula (g x)) = Some (h x).
Proof.
  revert arr. induction xs as [|y ys IH]; intros arr Hrange Hnodup Hin Hlen.
  - apply elem_of_nil in Hin. contradiction.
  - apply Forall_cons in Hrange. destruct Hrange as [Hy Hrange].
    rewrite fmap_cons in Hnodup. apply NoDup_cons in Hnodup.
    destruct Hnodup as [Hnotin Hnodup].
    cbn [foldl]. apply elem_of_cons in Hin. destruct Hin as [-> | Hin].
    + rewrite written_lookup_other by assumption.
      apply list_lookup_insert_eq. apply Hlen. exact Hy.
    + apply IH; try assumption.
      intros z Hz. rewrite length_insert. apply Hlen. exact Hz.
Qed.

(** X12: after a batch of [setVoxel] calls at pairwise distinct positions
    of the range, [getVoxel] returns at each of them the sample the batch
    wrote there, and at every other position of the range the sample from
    before the batch. *)
Theorem setVoxel_batch_reads_back
    (ws : list (vector3int32.t * t_voxel)) (a : accessor) :
  voxelCount <= int32_max ->
  voxels_allocated a ->
  Forall (fun w => in_halo_range (fst w)) ws ->
  NoDup (fst <$> ws) ->
  int32_min <= m_numVoxelLargerZero a ->
  m_numVoxelLargerZero a + Z.of_nat (length ws) <= int32_max ->
  exists a' : accessor,
    for_each (fun w => setVoxel (fst w) (snd w)) ws a = Ok (tt, a') /\
    (forall w, w ∈ ws -> getVoxel (fst w) a' = Ok (snd w, a')) /\
    (forall (q : vector3int32.t) (r : t_voxel),
        in_halo_range q -> q ∉ fst <$> ws ->
        getVoxel q a = Ok (r, a) -> getVoxel q a' = Ok (r, a')).
Proof.
  intros Hfit Halloc Hrange Hnodup Hmin Hmax.
  eexists. split; [exact (for_each_setVoxel_run fst snd ws a Hfit Halloc Hrange Hmin Hmax)|].
  match goal with |- context [getVoxel _ ?s = _] => set (a' := s) end.
  assert (Halloc' : voxels_allocated a').
  { unfold voxels_allocated, a'. cbn [m_voxels set_voxels].
    rewrite written_length. exact Halloc. }
  split.
  - intros w Hw.
    assert (Hpos : in_halo_range (fst w))
      by (rewrite Forall_forall in Hrange; exact (Hrange w Hw)).
    destruct (getVoxel_run (fst w) a' Hfit Halloc' Hpos) as (r & Hr & Hget).
    unfold a' in Hr. cbn [m_voxels set_voxels] in Hr.
    rewrite (written_lookup_self fst snd ws (m_voxels a) w) in Hr;
      [congruence | assumption | assumption | assumption |].
    intros y Hy. pose proof (voxel_index_formula_bounds (fst y) Hy).
    unfold voxels_allocated in Halloc. lia.
  - intros q r Hq Hnotin Hget.
    destruct (getVoxel_run q a Hfit Halloc Hq) as (r0 & Hr0 & Hget0).
    destruct (getVoxel_run q a' Hfit Halloc' Hq) as (r1 & Hr1 & Hget1).
    unfold a' in Hr1. cbn [m_voxels set_voxels] in Hr1.
    rewrite written_lookup_other in Hr1 by assumption.
    congruence.
Qed.

(** *** Sweeping the surface region *)

Lemma in_surface_spec (pos : vector3int32.t) :
  in_surface pos = true <->
  0 <= vector3int32.x pos < voxelLengthSurface /\
  0 <= vector3int32.y pos < voxelLengthSurface /\
  0 <= vector3int32.z pos < voxelLengthSurface.
Proof.
  unfold in_surface. rewrite !andb_true_iff, !Z.leb_le, !Z.ltb_lt. tauto.
Qed.

Lemma surface_in_halo_range (pos : vector3int32.t) :
  in_surface pos = true -> in_halo_range pos.
Proof.
  rewrite in_surface_spec.
  unfold in_halo_range, voxelLengthSurface, voxelLengthWithNormalCorrection,
    voxelLength.
  lia.
Qed.

Lemma surface_positions_spec (pos : vector3int32.t) :
  pos ∈ surface_positions <-> in_surface pos = true.
Proof.
  unfold surface_positions. rewrite list_elem_of_fmap, in_surface_spec. split.
  - intros ([x [y z]] & -> & Hin).
    apply list_elem_of_In, in_prod_iff in Hin. destruct Hin as [Hx Hyz].
    apply in_prod_iff in Hyz. destruct Hyz as [Hy Hz].
    apply list_elem_of_In, elem_of_seqZ in Hx, Hy, Hz.
    cbn [fst snd vector3int32.x vector3int32.y vector3int32.z]. lia.
  - intros (Hx & Hy & Hz). destruct pos as [x y z].
    cbn [vector3int32.x vector3int32.y vector3int32.z] in *.
    exists (x, (y, z)). split; [reflexivity|].
    apply list_elem_of_In, in_prod_iff. split.
    + apply list_elem_of_In, elem_of_seqZ. lia.
    + apply in_prod_iff. split; apply list_elem_of_In, elem_of_seqZ; lia.
Qed.

Lemma surface_positions_length :
  0 <= voxelLengthSurface ->
  Z.of_nat (length surface_positions) = voxelCountSurface.
Proof.
  intros Hl. unfold surface_positions, voxelCountSurface.
  rewrite length_fmap, !length_prod, !length_seqZ.
  rewrite !Nat2Z.inj_mul, Z2Nat.id by exact Hl. ring.
Qed.

Lemma counted_non_empty {X} (g : X -> vector3int32.t) (h : X -> t_voxel)
    (xs : list X) :
  Forall (fun x => in_surface (g x) = true /\ 0 <= getInterpolation (h x)) xs ->
  counted g h xs = Z.of_nat (length xs).
Proof.
  induction xs as [|x xs IH]; intros Hall; cbn [foldr length]; [reflexivity|].
  apply Forall_cons in Hall. destruct Hall as [[Hsurf Hne] Hall].
  rewrite (IH Hall). unfold surface_bump. rewrite Hsurf.
  destruct (Z.leb_spec 0 (getInterpolation (h x))); cbn [andb]; lia.
Qed.

(** X13: on an accessor whose counter is zero, one [setVoxel] of a
    non-empty sample at every position of the surface region makes
    [m_numVoxelLargerZero] equal to [voxelCountSurface]: [isFull] answers
    [true] and [isEmpty] answers [false]. *)
Theorem surface_sweep_is_full (f : vector3int32.t -> t_voxel) (a : accessor) :
  voxelCount <= int32_max ->
  0 <= voxelsPerTile ->
  voxels_allocated a ->
  m_numVoxelLargerZero a = 0 ->
  (forall p, 0 <= getInterpolation (f p)) ->
  exists a' : accessor,
    for_each (fun p => setVoxel p (f p)) surface_positions a = Ok (tt, a') /\
    m_numVoxelLargerZero a' = voxelCountSurface /\
    isFull a' = Ok (true, a') /\
    isEmpty a' = Ok (false, a').
Proof.
  intros Hfit Hn Halloc Hzero Hne.
  assert (Hl : 0 <= voxelLengthSurface) by (unfold voxelLengthSurface; lia).
  pose proof (surface_positions_length Hl) as Hlen.
  assert (Hcount : 0 < voxelCountSurface <= voxelCount).
  { unfold voxelCountSurface, voxelCount, voxelLengthSurface,
      voxelLengthWithNormalCorrection, voxelLength. nia. }
  assert (Hrange : Forall (fun p => in_halo_range p) surface_positions).
  { apply Forall_forall. intros p Hp.
    apply surface_in_halo_range, surface_positions_spec. exact Hp. }
  assert (Hall : Forall (fun p => in_surface p = true /\ 0 <= getInterpolation (f p))
                   surface_positions).
  { apply Forall_forall. intros p Hp. split; [|apply Hne].
    apply surface_positions_spec. exact Hp. }
  eexists. split.
  { apply (for_each_setVoxel_run (fun p => p) f surface_positions a Hfit Halloc Hrange).
    - rewrite Hzero. unfold int32_min. lia.
    - rewrite Hzero, Hlen. lia. }
  unfold isFull, isEmpty, gets.
  cbn [m_numVoxelLargerZero set_voxels set_numVoxelLargerZero].
  rewrite (counted_non_empty (fun p => p) f surface_positions Hall), Hzero, Hlen.
  rewrite Z.add_0_l, Z.eqb_refl.
  destruct (Z.eqb_spec voxelCountSurface 0); [lia|].
  repeat split; reflexivity.
Qed.

(** X14: the range of [setVoxel] and [getVoxel] is the surface region
    grown by exactly one voxel in every direction: every position adjacent
    to a position of the surface region is in the range, and every
    position of the range is adjacent to one of the surface region. *)
Theorem halo_is_one_voxel :
  (forall p q : vector3int32.t,
      in_surface p = true -> adjacent p q -> in_halo_range q) /\
  (0 <= voxelsPerTile ->
   forall q : vector3int32.t,
     in_halo_range q ->
     exists p : vector3int32.t, in_surface p = true /\ adjacent p q).
Proof.
  split.
  - intros p q Hp. apply in_surface_spec in Hp. revert Hp.
    unfold adjacent, in_halo_range, voxelLengthSurface,
      voxelLengthWithNormalCorrection, voxelLength.
    lia.
  - intros Hn [qx qy qz].
    unfold in_halo_range, voxelLengthWithNormalCorrection, voxelLength.
    cbn [vector3int32.x vector3int32.y vector3int32.z].
    intros (Hx & Hy & Hz).
    exists (vector3int32.make (Z.max 0 (Z.min qx voxelsPerTile))
              (Z.max 0 (Z.min qy voxelsPerTile))
              (Z.max 0 (Z.min qz voxelsPerTile))).
    rewrite in_surface_spec. unfold adjacent, voxelLengthSurface.
    cbn [vector3int32.x vector3int32.y vector3int32.z]. lia.
Qed.

(** *** What a successful level-of-detail write did *)

Lemma setVoxelLod_2d_Ok (index : vector2int32.t) (toSet : t_voxel) (lod : Z)
    (a a' : accessor) (changed : bool) :
  setVoxelLod_2d index toSet lod a = Ok (changed, a') ->
  m_calculateLod a = true /\
  exists (l : list t_voxel) (oldValue : t_voxel),
    m_voxelsLod a = Some l /\
    0 <= to_uint32 (lod_index index lod) < Z.of_nat (length l) /\
    changed = voxel_neq oldValue toSet /\
    a' = set_voxelsLod
           (Some (<[Z.to_nat (to_uint32 (lod_index index lod)) := toSet]> l))
           (set_numVoxelLargerZeroLod
              (if 0 <=? getInterpolation toSet
               then add32 (m_numVoxelLargerZeroLod a) 1
               else m_numVoxelLargerZeroLod a) a).
Proof.
  unfold setVoxelLod_2d. cbv zeta. intros Hrun.
  apply bind_Ok in Hrun. destruct Hrun as (u1 & a1 & Hge & Hrun).
  apply BASSERT_Ok in Hge. destruct Hge as [_ ->].
  apply bind_Ok in Hrun. destruct Hrun as (u2 & a2 & Hlt & Hrun).
  apply BASSERT_Ok in Hlt. destruct Hlt as [_ ->].
  apply bind_Ok in Hrun. destruct Hrun as (calc & a3 & Hcalc & Hrun).
  apply gets_Ok in Hcalc. destruct Hcalc as [-> ->].
  apply bind_Ok in Hrun. destruct Hrun as (u3 & a4 & Hflag & Hrun).
  apply BASSERT_Ok in Hflag. destruct Hflag as [Hflag ->].
  apply bind_Ok in Hrun. destruct Hrun as (p & a5 & Hp & Hrun).
  apply gets_Ok in Hp. destruct Hp as [-> ->].
  apply bind_Ok in Hrun. destruct Hrun as (u4 & a6 & Hsome & Hrun).
  apply BASSERT_Ok in Hsome. destruct Hsome as [_ ->].
  apply bind_Ok in Hrun. destruct Hrun as (u5 & a7 & Hbump & Hrun).
  rewrite Z.geb_leb in Hbump.
  assert (Ha7 : a7 = set_numVoxelLargerZeroLod
                       (if 0 <=? getInterpolation toSet
                        then add32 (m_numVoxelLargerZeroLod a) 1
                        else m_numVoxelLargerZeroLod a) a).
  { destruct (0 <=? getInterpolation toSet).
    - apply modify_Ok in Hbump. exact Hbump.
    - apply mret_Ok in Hbump. destruct Hbump as [_ ->]. destruct a; reflexivity. }
  clear Hbump. subst a7.
  apply bind_Ok in Hrun. destruct Hrun as (l & a8 & Hderef & Hrun).
  unfold deref_voxelsLod in Hderef.
  cbn [m_voxelsLod set_numVoxelLargerZeroLod] in Hderef.
  destruct (m_voxelsLod a) as [l0|] eqn:Hptr; [|discriminate].
  injection Hderef as -> <-.
  apply bind_Ok in Hrun. destruct Hrun as (old & a9 & Hat & Hrun).
  apply lift_result_Ok in Hat. destruct Hat as [Hat ->].
  apply bind_Ok in Hrun. destruct Hrun as (l' & a10 & Hassign & Hrun).
  apply lift_result_Ok in Hassign. destruct Hassign as [Hassign ->].
  apply vector_assign_Ok in Hassign. destruct Hassign as [Hbound ->].
  apply bind_Ok in Hrun. destruct Hrun as (u6 & a11 & Hmod & Hrun).
  apply modify_Ok in Hmod. subst a11.
  apply mret_Ok in Hrun. destruct Hrun as [-> ->].
  split; [exact Hflag|].
  exists l, old. split; [reflexivity|]. split; [exact Hbound|].
  split; reflexivity.
Qed.

Lemma setVoxelLod_Ok (pos : vector3int32.t) (toSet : t_voxel) (lod : Z)
    (a a' : accessor) (changed : bool) :
  setVoxelLod pos toSet lod a = Ok (changed, a') ->
  on_face pos lod /\
  setVoxelLod_2d (projectLodCoord_table pos lod) toSet lod a = Ok (changed, a').
Proof.
  unfold setVoxelLod. intros Hrun.
  apply bind_Ok in Hrun. destruct Hrun as (index & a1 & Hproj & Hrun).
  apply lift_result_Ok in Hproj. destruct Hproj as [Hproj ->].
  apply calculateCoordsLod_Ok in Hproj. destruct Hproj as [Hface ->].
  split; assumption.
Qed.

(** X15: a successful [setVoxelLod] changes the level-of-detail array at
    one index and possibly [m_numVoxelLargerZeroLod], and nothing else:
    the main array, the flag, [m_numVoxelLargerZero] and the size of the
    level-of-detail array stay as they were. *)
Theorem setVoxelLod_frame
    (pos : vector3int32.t) (v : t_voxel) (lod : Z) (a a' : accessor)
    (changed : bool) :
  setVoxelLod pos v lod a = Ok (changed, a') ->
  m_voxels a' = m_voxels a /\
  m_calculateLod a' = true /\
  m_calculateLod a = true /\
  m_numVoxelLargerZero a' = m_numVoxelLargerZero a /\
  exists l l' : list t_voxel,
    m_voxelsLod a = Some l /\
    m_voxelsLod a' = Some l' /\
    length l' = length l /\
    forall i : nat,
      i <> Z.to_nat (to_uint32 (lod_index (projectLodCoord_table pos lod) lod)) ->
      l' !! i = l !! i.
Proof.
  intros Hrun. apply setVoxelLod_Ok in Hrun. destruct Hrun as [_ Hrun].
  apply setVoxelLod_2d_Ok in Hrun.
  destruct Hrun as (Hflag & l & old & Hptr & _ & _ & ->).
  cbn [m_voxels m_voxelsLod m_calculateLod m_numVoxelLargerZero set_voxelsLod
       set_numVoxelLargerZeroLod].
  split; [reflexivity|]. split; [exact Hflag|]. split; [exact Hflag|].
  split; [reflexivity|].
  eexists l, _. split; [exact Hptr|]. split; [reflexivity|].
  split; [apply length_insert|].
  intros i Hi. apply list_lookup_insert_ne. congruence.
Qed.

(** *** Functions that leave the object alone *)

Lemma keeps_deref (P : accessor -> Prop) : keeps P deref_voxelsLod.
Proof.
  intros s s' r HP Hrun. apply deref_voxelsLod_Ok in Hrun.
  destruct Hrun as [_ ->]. exact HP.
Qed.

Local Hint Resolve keeps_deref keeps_on_self keeps_archive_put
  keeps_archive_get keeps_archive_amp : keeps.

Lemma getVoxelLod_pure (pos : vector3int32.t) (lod : Z) (a a' : accessor)
    (r : t_voxel) :
  getVoxelLod pos lod a = Ok (r, a') -> a' = a.
Proof.
  intros Hrun.
  assert (Hkeep : keeps (fun x => x = a) (getVoxelLod pos lod))
    by (unfold getVoxelLod, getVoxelLod_2d; eauto 12 with keeps).
  exact (Hkeep a a' r eq_refl Hrun).
Qed.

Lemma serialize_saving_pure (ar ar' : archive) (a a' : accessor) (u : unit) :
  serialize Saving (ar, a) = Ok (u, (ar', a')) -> a' = a.
Proof.
  intros Hrun.
  assert (Hkeep : keeps (on_object (fun x => x = a)) (serialize Saving)).
  { unfold serialize, saveLoad, save.
    repeat first
      [ solve [eauto with keeps]
      | apply keeps_bind; [|intros]
      | apply keeps_if
      | apply keeps_archive_amp; [|intros] ]. }
  exact (Hkeep (ar, a) (ar', a') u eq_refl Hrun).
Qed.

(** *** The sizes of the arrays *)

Lemma well_sized_same_shape (a a' : accessor) :
  well_sized a ->
  length (m_voxels a') = length (m_voxels a) ->
  m_calculateLod a' = m_calculateLod a ->
  (forall l, m_voxelsLod a = Some l ->
             exists l', m_voxelsLod a' = Some l' /\ length l' = length l) ->
  (m_voxelsLod a = None -> m_voxelsLod a' = None) ->
  well_sized a'.
Proof.
  unfold well_sized, voxels_allocated, lod_consistent.
  intros (Halloc & Hinv & Hlod) Hlen Hflag Hsome Hnone.
  split; [rewrite Hlen; exact Halloc|]. split.
  - rewrite Hflag, <- Hinv.
    destruct (m_voxelsLod a) as [l|] eqn:Hptr.
    + destruct (Hsome l eq_refl) as (l' & -> & _). split; eauto.
    + rewrite (Hnone eq_refl). reflexivity.
  - intros l' Hptr'. destruct (m_voxelsLod a) as [l|] eqn:Hptr.
    + destruct (Hsome l eq_refl) as (l'' & Hl'' & Hlen'').
      assert (l'' = l') by congruence. subst l''.
      rewrite Hlen''. apply Hlod. reflexivity.
    + rewrite (Hnone eq_refl) in Hptr'. discriminate.
Qed.

Lemma well_sized_unchanged_arrays (a a' : accessor) :
  well_sized a ->
  m_voxels a' = m_voxels a ->
  m_voxelsLod a' = m_voxelsLod a ->
  m_calculateLod a' = m_calculateLod a ->
  well_sized a'.
Proof.
  intros Hwell Hv Hl Hf.
  apply (well_sized_same_shape a a' Hwell); [congruence | exact Hf | |].
  - intros l Hptr. exists l. split; [congruence | reflexivity].
  - congruence.
Qed.

Lemma create_well_sized : 0 <= voxelCount -> well_sized create.
Proof.
  intros Hcount. split; [exact (create_allocated Hcount)|]. split.
  - unfold lod_consistent, create. cbn [m_voxelsLod m_calculateLod].
    split; [intros [? [=]] | discriminate].
  - unfold create. cbn [m_voxelsLod]. discriminate.
Qed.

Lemma setVoxel_well_sized (pos : vector3int32.t) (v : t_voxel)
    (a a' : accessor) (changed : bool) :
  well_sized a -> setVoxel pos v a = Ok (changed, a') -> well_sized a'.
Proof.
  intros Hwell Hrun.
  destruct (setVoxel_Ok pos v a a' changed Hrun) as (_ & _ & old & _ & _ & ->).
  apply (well_sized_same_shape a _ Hwell);
    cbn [m_voxels m_voxelsLod m_calculateLod set_voxels set_numVoxelLargerZero].
  - apply length_insert.
  - reflexivity.
  - intros l Hptr. exists l. split; [exact Hptr | reflexivity].
  - intros Hptr. exact Hptr.
Qed.

Lemma setVoxelLod_well_sized (pos : vector3int32.t) (v : t_voxel) (lod : Z)
    (a a' : accessor) (changed : bool) :
  well_sized a -> setVoxelLod pos v lod a = Ok (changed, a') -> well_sized a'.
Proof.
  intros Hwell Hrun. apply setVoxelLod_Ok in Hrun. destruct Hrun as [_ Hrun].
  apply setVoxelLod_2d_Ok in Hrun.
  destruct Hrun as (Hflag & l & old & Hptr & _ & _ & ->).
  apply (well_sized_same_shape a _ Hwell);
    cbn [m_voxels m_voxelsLod m_calculateLod set_voxelsLod
         set_numVoxelLargerZeroLod].
  - reflexivity.
  - reflexivity.
  - intros l0 Hptr0. assert (l0 = l) by congruence. subst l0.
    eexists. split; [reflexivity | apply length_insert].
  - congruence.
Qed.

Lemma setCalculateLod_well_sized (lod : bool) (a a' : accessor) (u : unit) :
  well_sized a -> setCalculateLod lod a = Ok (u, a') -> well_sized a'.
Proof.
  intros Hwell Hrun.
  destruct (setCalculateLod_Ok lod a a' u Hrun)
    as [[_ ->] | [(_ & _ & _ & ->) | (_ & _ & ->)]]; [exact Hwell | |];
    destruct Hwell as (Halloc & _ & _);
    (split; [exact Halloc|]);
    unfold lod_consistent;
    cbn [m_voxelsLod m_calculateLod set_voxelsLod set_calculateLod].
  - split; [split; eauto|].
    intros l [= <-]. exact fresh_lod_length.
  - split; [split; [intros [? [=]] | discriminate] | discriminate].
Qed.

(** X16: a freshly created accessor has a main array of [voxelCount]
    samples and no level-of-detail array, and every operation that
    succeeds keeps the main array at [voxelCount] samples, the
    level-of-detail array (when there is one) at [voxelCountLodAll]
    samples and the handle non-null exactly when the flag is set; the
    exceptions are loading an archive, and a caller that resizes an array
    through the reference it was handed. *)
Theorem array_sizes_invariant :
  (0 <= voxelCount -> well_sized create) /\
  (forall (c : call) (a a' : accessor) (u : unit),
      keeps_sizes c -> well_sized a -> invoke c a = Ok (u, a') -> well_sized a').
Proof.
  split; [exact create_well_sized|].
  intros c a a' u Hsafe Hwell Hrun.
  destruct c; cbn [invoke keeps_sizes] in Hrun, Hsafe.
  - apply bind_Ok in Hrun. destruct Hrun as (r & a1 & Hrun & Hret).
    apply mret_Ok in Hret. destruct Hret as [_ ->].
    exact (setVoxel_well_sized _ _ _ _ _ Hwell Hrun).
  - apply bind_Ok in Hrun. destruct Hrun as (r & a1 & Hrun & Hret).
    apply mret_Ok in Hret. destruct Hret as [_ ->].
    exact (setVoxelLod_well_sized _ _ _ _ _ _ Hwell Hrun).
  - apply bind_Ok in Hrun. destruct Hrun as (r & a1 & Hrun & Hret).
    apply mret_Ok in Hret. destruct Hret as [_ ->].
    apply getVoxel_pure in Hrun. subst a1. exact Hwell.
  - apply bind_Ok in Hrun. destruct Hrun as (r & a1 & Hrun & Hret).
    apply mret_Ok in Hret. destruct Hret as [_ ->].
    apply getVoxelLod_pure in Hrun. subst a1. exact Hwell.
  - apply bind_Ok in Hrun. destruct Hrun as (r & a1 & Hrun & Hret).
    apply mret_Ok in Hret. destruct Hret as [_ ->].
    apply gets_Ok in Hrun. destruct Hrun as [_ ->]. exact Hwell.
  - apply bind_Ok in Hrun. destruct Hrun as (r & a1 & Hrun & Hret).
    apply mret_Ok in Hret. destruct Hret as [_ ->].
    apply gets_Ok in Hrun. destruct Hrun as [_ ->]. exact Hwell.
  - apply bind_Ok in Hrun. destruct Hrun as (r & a1 & Hrun & Hret).
    apply mret_Ok in Hret. destruct Hret as [_ ->].
    apply gets_Ok in Hrun. destruct Hrun as [_ ->]. exact Hwell.
  - apply bind_Ok in Hrun. destruct Hrun as (r & a1 & Hrun & Hret).
    apply mret_Ok in Hret. destruct Hret as [_ ->].
    apply gets_Ok in Hrun. destruct Hrun as [_ ->]. exact Hwell.
  - apply bind_Ok in Hrun. destruct Hrun as (r & a1 & Hrun & Hret).
    apply mret_Ok in Hret. destruct Hret as [_ ->].
    apply gets_Ok in Hrun. destruct Hrun as [_ ->]. exact Hwell.
  - apply bind_Ok in Hrun. destruct Hrun as (voxels & a1 & Hget & Hmod).
    apply gets_Ok in Hget. destruct Hget as [-> ->].
    apply modify_Ok in Hmod. subst a'.
    apply (well_sized_same_shape a _ Hwell);
      cbn [m_voxels m_voxelsLod m_calculateLod set_voxels].
    + apply Hsafe.
    + reflexivity.
    + intros l Hptr. exists l. split; [exact Hptr | reflexivity].
    + intros Hptr. exact Hptr.
  - apply bind_Ok in Hrun. destruct Hrun as (p & a1 & Hget & Hmod).
    apply gets_Ok in Hget. destruct Hget as [-> ->].
    destruct (m_voxelsLod a) as [l|] eqn:Hptr.
    + apply modify_Ok in Hmod. subst a'.
      apply (well_sized_same_shape a _ Hwell);
        cbn [m_voxels m_voxelsLod m_calculateLod set_voxelsLod].
      * reflexivity.
      * reflexivity.
      * intros l0 Hptr0. rewrite Hptr in Hptr0. injection Hptr0 as <-.
        eexists. split; [reflexivity | apply Hsafe].
      * rewrite Hptr. discriminate.
    + apply mret_Ok in Hmod. destruct Hmod as [_ ->]. exact Hwell.
  - exact (setCalculateLod_well_sized _ _ _ _ Hwell Hrun).
  - apply modify_Ok in Hrun. subst a'.
    apply (well_sized_unchanged_arrays a _ Hwell); reflexivity.
  - apply modify_Ok in Hrun. subst a'.
    apply (well_sized_unchanged_arrays a _ Hwell); reflexivity.
  - destruct fmt; [|contradiction].
    destruct (serialize Saving (readWrite, a)) as [[u0 [ar a0]]|e] eqn:Hser;
      [|discriminate].
    injection Hrun as _ <-.
    apply serialize_saving_pure in Hser. subst a0. exact Hwell.
Qed.

(** *** Saving and loading, in general *)

Lemma serialize_saving_run (ar : archive) (a : accessor) :
  lod_consistent a ->
  serialize Saving (ar, a)
  = Ok (tt, (ar ++ archived_header a ++ archived_payload a, a)).
Proof.
  intros Hinv. unfold archived_header, archived_payload.
  destruct (consistent_cases a Hinv) as [(Hflag & l & Hptr) | (Hflag & Hptr)];
    destruct a as [v p f n1 n2];
    cbn [m_calculateLod m_voxelsLod] in Hflag, Hptr; subst f p;
    match goal with
    | |- ?run = _ => let r := eval cbv -[app] in run in change run with r
    end;
    rewrite <- !app_assoc; reflexivity.
Qed.

Lemma serialize_saving_asserts (ar : archive) (a : accessor) :
  m_calculateLod a = true ->
  m_voxelsLod a = None ->
  serialize Saving (ar, a) = Err AssertionFailure.
Proof.
  intros Hflag Hptr. destruct a as [v p f n1 n2].
  cbn [m_calculateLod m_voxelsLod] in Hflag, Hptr. subst f p. reflexivity.
Qed.

Lemma serialize_loading_any (a c : accessor) (rest : archive) :
  lod_consistent a ->
  lod_consistent c ->
  serialize Loading ((archived_header a ++ archived_payload a) ++ rest, c)
  = Ok (tt, (rest, a)).
Proof.
  intros Hinv Hc. unfold archived_header, archived_payload.
  destruct (consistent_cases a Hinv) as [(Hflag & l & Hptr) | (Hflag & Hptr)];
    destruct (consistent_cases c Hc) as [(Hcflag & lc & Hcptr) | (Hcflag & Hcptr)];
    destruct a as [v p f n1 n2], c as [cv cp cf cn1 cn2];
    cbn [m_calculateLod m_voxelsLod] in Hflag, Hptr, Hcflag, Hcptr;
    subst f p cf cp; reflexivity.
Qed.

Lemma setCalculateLod_total (lod : bool) (a : accessor) :
  lod_consistent a -> exists a', setCalculateLod lod a = Ok (tt, a').
Proof.
  intros Hinv.
  destruct (consistent_cases a Hinv) as [(Hflag & l & Hptr) | (Hflag & Hptr)];
    destruct lod.
  - exists a. rewrite <- Hflag. apply setCalculateLod_unchanged.
  - eexists. apply setCalculateLod_disable. exact Hflag.
  - eexists. apply setCalculateLod_enable; assumption.
  - exists a. rewrite <- Hflag. apply setCalculateLod_unchanged.
Qed.

Lemma fails_within_on_self {A} (E : fault -> Prop) (Q : accessor -> Prop)
    (m : M accessor A) :
  fails_within E Q m -> fails_within E (on_object Q) (on_self m).
Proof.
  unfold on_object. intros Hm [ar a] e HQ Hrun. unfold on_self in Hrun.
  destruct (m a) as [[r a1]|e1] eqn:Hma; [discriminate|].
  injection Hrun as ->. exact (Hm a e HQ Hma).
Qed.

Lemma fails_within_archive_put (E : fault -> Prop)
    (P : archive * accessor -> Prop) (name : string) (v : archive_value) :
  fails_within E P (archive_put name v).
Proof. apply fails_within_modify. Qed.

Lemma fails_within_archive_get (E : fault -> Prop)
    (P : archive * accessor -> Prop) (name : string) :
  E ArchiveMismatch -> fails_within E P (archive_get name).
Proof.
  intros HE [ar a] e _ Hrun. unfold archive_get in Hrun.
  destruct ar as [|[n v] rest]; [injection Hrun as <-; exact HE|].
  destruct (String.eqb n name); [discriminate|].
  injection Hrun as <-. exact HE.
Qed.

Lemma as_bool_Err (v : archive_value) (e : fault) :
  as_bool v = Err e -> e = ArchiveMismatch.
Proof. destruct v; [discriminate | |]; intros [= <-]; reflexivity. Qed.

Lemma as_int32_Err (v : archive_value) (e : fault) :
  as_int32 v = Err e -> e = ArchiveMismatch.
Proof. destruct v; [|discriminate|]; intros [= <-]; reflexivity. Qed.

Lemma as_vector_Err (v : archive_value) (e : fault) :
  as_vector v = Err e -> e = ArchiveMismatch.
Proof. destruct v; [| |discriminate]; intros [= <-]; reflexivity. Qed.

(** Loading a field of the object that is not the level-of-detail array. *)
Lemma fails_within_load_field (name : string)
    (read_field : M accessor archive_value)
    (write_field : archive_value -> M accessor unit) :
  (forall v, fails_within (fun e => e = ArchiveMismatch) lod_consistent
               (write_field v)) ->
  fails_within (fun e => e = ArchiveMismatch) (on_object lod_consistent)
    (archive_amp Loading name read_field write_field).
Proof.
  intros Hwrite. cbn [archive_amp].
  apply fails_within_bind.
  - apply fails_within_archive_get. reflexivity.
  - apply keeps_archive_get.
  - intros v. apply fails_within_on_self. apply Hwrite.
Qed.

Lemma serialize_loading_faults (ar : archive) (a : accessor) (e : fault) :
  lod_consistent a ->
  serialize Loading (ar, a) = Err e ->
  e = ArchiveMismatch.
Proof.
  intros Hinv Hrun.
  assert (Hfails : fails_within (fun e => e = ArchiveMismatch)
                     (on_object lod_consistent) (serialize Loading));
    [|exact (Hfails (ar, a) e Hinv Hrun)].
  clear ar a e Hinv Hrun. unfold serialize.
  apply fails_within_bind.
  { apply fails_within_load_field. intros v. apply fails_within_bind.
    - apply fails_within_lift_result. apply as_int32_Err.
    - apply keeps_lift_result.
    - intros n. apply fails_within_modify. }
  { apply keeps_archive_amp; eauto with keeps. }
  intros _. apply fails_within_bind.
  { apply fails_within_load_field. intros v. apply fails_within_bind.
    - apply fails_within_lift_result. apply as_int32_Err.
    - apply keeps_lift_result.
    - intros n. apply fails_within_modify. }
  { apply keeps_archive_amp; eauto with keeps. }
  intros _. apply fails_within_bind.
  { cbn [saveLoad]. unfold load. apply fails_within_bind.
    - apply fails_within_archive_get. reflexivity.
    - apply keeps_archive_get.
    - intros v. apply fails_within_bind.
      + apply fails_within_lift_result. apply as_bool_Err.
      + apply keeps_lift_result.
      + intros b. apply fails_within_on_self. apply fails_within_total.
        intros s Hs. destruct (setCalculateLod_total b s Hs) as (s' & Hs').
        eexists _, _. exact Hs'. }
  { apply keeps_saveLoad. }
  intros _. apply fails_within_bind.
  { apply fails_within_load_field. intros v. apply fails_within_bind.
    - apply fails_within_lift_result. apply as_vector_Err.
    - apply keeps_lift_result.
    - intros n. apply fails_within_modify. }
  { apply keeps_archive_amp; eauto with keeps. }
  intros _ [ar a] e Hinv Hrun. unfold on_object in Hinv. cbn [snd] in Hinv.
  rewrite (bind_run_Ok _ _ (ar, a) (ar, a) (m_calculateLod a)) in Hrun
    by reflexivity.
  destruct (consistent_cases a Hinv) as [(Hflag & l & Hptr) | (Hflag & Hptr)];
    rewrite Hflag in Hrun; [|discriminate].
  rewrite (bind_run_Ok _ _ (ar, a) (ar, a) (m_voxelsLod a)) in Hrun
    by reflexivity.
  rewrite Hptr in Hrun.
  rewrite (bind_run_Ok _ _ (ar, a) (ar, a) tt) in Hrun by reflexivity.
  cbn [archive_amp] in Hrun.
  apply bind_Err in Hrun. destruct Hrun as [Hrun | (v & [ar1 a1] & Hget & Hrun)].
  { exact (fails_within_archive_get (fun e => e = ArchiveMismatch)
             (fun _ => True) _ eq_refl (ar, a) e I Hrun). }
  assert (a1 = a).
  { exact (keeps_archive_get (fun x => x = a) _ (ar, a) (ar1, a1) v eq_refl Hget). }
  subst a1. unfold on_self in Hrun.
  destruct (as_vector v) as [lv|ev] eqn:Hv.
  - rewrite (bind_run_Ok _ _ a a lv) in Hrun by reflexivity.
    rewrite (bind_run_Ok _ _ a a l) in Hrun
      by (unfold deref_voxelsLod; rewrite Hptr; reflexivity).
    discriminate.
  - rewrite (bind_run_Err _ _ a ev) in Hrun by reflexivity.
    injection Hrun as <-. exact (as_vector_Err v ev Hv).
Qed.

(** X17: saving appends to the archive, after what it holds, the two
    counters, the flag, the main array and, when the flag is set, the
    level-of-detail array, in this order; a saving run that succeeds
    leaves the accessor as it was; and saving an accessor whose flag is
    set while it has no level-of-detail array fails the assertion. *)
Theorem serialize_saving_appends :
  (forall (ar : archive) (a : accessor),
      lod_consistent a ->
      serialize Saving (ar, a)
      = Ok (tt, (ar ++ archived_header a ++ archived_payload a, a))) /\
  (forall (ar ar' : archive) (a a' : accessor) (u : unit),
      serialize Saving (ar, a) = Ok (u, (ar', a')) -> a' = a) /\
  (forall (ar : archive) (a : accessor),
      m_calculateLod a = true ->
      m_voxelsLod a = None ->
      serialize Saving (ar, a) = Err AssertionFailure).
Proof.
  split; [exact serialize_saving_run|].
  split; [exact serialize_saving_pure | exact serialize_saving_asserts].
Qed.

(** X18: loading what was saved from one accessor into any other
    accessor, fresh or used, with or without level of detail, makes it
    equal to the saved one and leaves the rest of the archive unread. *)
Theorem serialize_loading_overwrites (a c : accessor) (rest : archive) :
  lod_consistent a ->
  lod_consistent c ->
  exists readWrite : archive,
    serialize Saving ([], a) = Ok (tt, (readWrite, a)) /\
    serialize Loading (readWrite ++ rest, c) = Ok (tt, (rest, a)).
Proof.
  intros Ha Hc. exists (archived_header a ++ archived_payload a).
  split; [exact (serialize_saving_run [] a Ha)|].
  exact (serialize_loading_any a c rest Ha Hc).
Qed.

(** X19: two accessors saved one after the other into one archive are
    loaded back from it in the same order. *)
Theorem serialize_sequence (a b c : accessor) :
  lod_consistent a ->
  lod_consistent b ->
  lod_consistent c ->
  exists ar1 ar2 rest : archive,
    serialize Saving ([], a) = Ok (tt, (ar1, a)) /\
    serialize Saving (ar1, b) = Ok (tt, (ar2, b)) /\
    serialize Loading (ar2, c) = Ok (tt, (rest, a)) /\
    serialize Loading (rest, a) = Ok (tt, ([], b)).
Proof.
  intros Ha Hb Hc.
  exists (archived_header a ++ archived_payload a),
    ((archived_header a ++ archived_payload a)
       ++ archived_header b ++ archived_payload b),
    (archived_header b ++ archived_payload b).
  split; [exact (serialize_saving_run [] a Ha)|].
  split; [exact (serialize_saving_run _ b Hb)|].
  split; [exact (serialize_loading_any a c _ Ha Hc)|].
  rewrite <- (app_nil_r (archived_header b ++ archived_payload b)).
  exact (serialize_loading_any b a [] Hb Ha).
Qed.

(** *** No access outside an array *)

Lemma setVoxel_faults (pos : vector3int32.t) (v : t_voxel) (a : accessor)
    (e : fault) :
  voxelCount <= int32_max ->
  voxels_allocated a ->
  setVoxel pos v a = Err e -> e = AssertionFailure.
Proof.
  intros Hfit Halloc Hrun.
  assert (Hdec : in_halo_range pos \/ ~ in_halo_range pos)
    by (unfold in_halo_range; lia).
  destruct Hdec as [Hin | Hout].
  - destruct (setVoxel_run pos v a Hfit Halloc Hin) as (old & _ & Hok).
    rewrite Hok in Hrun. discriminate.
  - unfold setVoxel in Hrun.
    rewrite (bind_run_Err _ _ a _ (assert_voxel_pos_fail pos a Hout)) in Hrun.
    injection Hrun as <-. reflexivity.
Qed.

Lemma getVoxel_faults (pos : vector3int32.t) (a : accessor) (e : fault) :
  voxelCount <= int32_max ->
  voxels_allocated a ->
  getVoxel pos a = Err e -> e = AssertionFailure.
Proof.
  intros Hfit Halloc Hrun.
  assert (Hdec : in_halo_range pos \/ ~ in_halo_range pos)
    by (unfold in_halo_range; lia).
  destruct Hdec as [Hin | Hout].
  - destruct (getVoxel_run pos a Hfit Halloc Hin) as (r & _ & Hok).
    rewrite Hok in Hrun. discriminate.
  - unfold getVoxel in Hrun.
    rewrite (bind_run_Err _ _ a _ (assert_voxel_pos_fail pos a Hout)) in Hrun.
    injection Hrun as <-. reflexivity.
Qed.

Lemma well_sized_lod (a : accessor) :
  well_sized a ->
  m_calculateLod a = true ->
  exists l, m_voxelsLod a = Some l /\ Z.of_nat (length l) = voxelCountLodAll.
Proof.
  intros (_ & Hinv & Hlen) Hflag.
  destruct (proj2 Hinv Hflag) as [l Hptr].
  exists l. split; [exact Hptr | exact (Hlen l Hptr)].
Qed.

Lemma setVoxelLod_faults (pos : vector3int32.t) (v : t_voxel) (lod : Z)
    (a : accessor) (e : fault) :
  voxelCountLodAll <= int32_max ->
  well_sized a ->
  setVoxelLod pos v lod a = Err e -> e = AssertionFailure.
Proof.
  intros Hfit Hwell Hrun.
  destruct (m_calculateLod a) eqn:Hflag;
    [|rewrite (setVoxelLod_disabled a pos v lod Hflag) in Hrun;
      injection Hrun as <-; reflexivity].
  destruct (well_sized_lod a Hwell Hflag) as (l & Hptr & Hlen).
  destruct (calculateCoordsLod pos lod) as [index|e0] eqn:Hproj.
  - apply calculateCoordsLod_Ok in Hproj. destruct Hproj as [Hface ->].
    destruct (calculateCoordsLod_ok pos lod Hface) as [_ Hplane].
    assert (Hlod : 0 <= lod < 6) by (destruct Hface; assumption).
    rewrite setVoxelLod_delegates in Hrun by exact Hface.
    destruct (setVoxelLod_2d_run _ v lod a l Hfit Hflag Hptr Hlen Hlod Hplane)
      as (old & _ & Hok).
    rewrite Hok in Hrun. discriminate.
  - unfold setVoxelLod in Hrun.
    rewrite (bind_run_Err _ _ a e0) in Hrun by (rewrite Hproj; reflexivity).
    injection Hrun as <-. exact (calculateCoordsLod_Err pos lod e0 Hproj).
Qed.

Lemma getVoxelLod_faults (pos : vector3int32.t) (lod : Z) (a : accessor)
    (e : fault) :
  voxelCountLodAll <= int32_max ->
  well_sized a ->
  getVoxelLod pos lod a = Err e -> e = AssertionFailure.
Proof.
  intros Hfit Hwell Hrun.
  destruct (m_calculateLod a) eqn:Hflag;
    [|rewrite (getVoxelLod_disabled a pos lod Hflag) in Hrun;
      injection Hrun as <-; reflexivity].
  destruct (well_sized_lod a Hwell Hflag) as (l & Hptr & Hlen).
  destruct (calculateCoordsLod pos lod) as [index|e0] eqn:Hproj.
  - apply calculateCoordsLod_Ok in Hproj. destruct Hproj as [Hface ->].
    destruct (calculateCoordsLod_ok pos lod Hface) as [_ Hplane].
    assert (Hlod : 0 <= lod < 6) by (destruct Hface; assumption).
    rewrite getVoxelLod_delegates in Hrun by exact Hface.
    destruct (getVoxelLod_2d_run _ lod a l Hfit Hflag Hptr Hlen Hlod Hplane)
      as (r & _ & Hok).
    rewrite Hok in Hrun. discriminate.
  - unfold getVoxelLod in Hrun.
    rewrite (bind_run_Err _ _ a e0) in Hrun by (rewrite Hproj; reflexivity).
    injection Hrun as <-. exact (calculateCoordsLod_Err pos lod e0 Hproj).
Qed.

(** X20: on an accessor whose arrays have their allocated sizes no
    operation ever indexes outside an array or dereferences the null
    handle: an operation that does not succeed fails one of its
    assertions, or, when it loads, fails on the archive; and while loading
    no assertion fails. *)
Theorem no_memory_fault (c : call) (a : accessor) (e : fault) :
  voxelCount <= int32_max ->
  voxelCountLodAll <= int32_max ->
  well_sized a ->
  invoke c a = Err e ->
  (e = AssertionFailure /\ forall ar, c <> Call_serialize Loading ar) \/
  (e = ArchiveMismatch /\ exists ar, c = Call_serialize Loading ar).
Proof.
  intros Hfit HfitLod Hwell Hrun.
  pose proof Hwell as (Halloc & Hinv & _).
  destruct c; cbn [invoke] in Hrun;
    try (left; split; [|discriminate]).
  - apply bind_Err in Hrun. destruct Hrun as [Hrun | (r & a1 & _ & Hret)];
      [exact (setVoxel_faults _ _ _ _ Hfit Halloc Hrun) | discriminate].
  - apply bind_Err in Hrun. destruct Hrun as [Hrun | (r & a1 & _ & Hret)];
      [exact (setVoxelLod_faults _ _ _ _ _ HfitLod Hwell Hrun) | discriminate].
  - apply bind_Err in Hrun. destruct Hrun as [Hrun | (r & a1 & _ & Hret)];
      [exact (getVoxel_faults _ _ _ Hfit Halloc Hrun) | discriminate].
  - apply bind_Err in Hrun. destruct Hrun as [Hrun | (r & a1 & _ & Hret)];
      [exact (getVoxelLod_faults _ _ _ _ HfitLod Hwell Hrun) | discriminate].
  - discriminate.
  - discriminate.
  - discriminate.
  - discriminate.
  - discriminate.
  - discriminate.
  - unfold getVoxelArrayLod, mbind, M_bind, gets in Hrun.
    destruct (m_voxelsLod a); discriminate.
  - destruct (setCalculateLod_total lod a Hinv) as (a' & Hok).
    rewrite Hok in Hrun. discriminate.
  - discriminate.
  - discriminate.
  - destruct fmt.
    + rewrite (serialize_saving_run readWrite a Hinv) in Hrun. discriminate.
    + right. split; [|eexists; reflexivity].
      destruct (serialize Loading (readWrite, a)) as [[u [ar a']]|e0] eqn:Hser;
        [discriminate|].
      injection Hrun as <-.
      exact (serialize_loading_faults readWrite a e0 Hinv Hser).
Qed.

(** X21: the counter counts writes, not cells: on an accessor whose
    counter is zero, [voxelCountSurface] writes of a non-empty sample at
    one and the same position of the surface region make [isFull] answer
    [true], while every other position of the range still holds the sample
    it held before. *)
Theorem repeated_write_reports_full
    (p : vector3int32.t) (v : t_voxel) (a : accessor) :
  voxelCount <= int32_max ->
  0 <= voxelsPerTile ->
  voxels_allocated a ->
  m_numVoxelLargerZero a = 0 ->
  in_surface p = true ->
  0 <= getInterpolation v ->
  exists a' : accessor,
    for_each (fun q => setVoxel q v) (replicate (Z.to_nat voxelCountSurface) p) a
    = Ok (tt, a') /\
    isFull a' = Ok (true, a') /\
    (forall (q : vector3int32.t) (r : t_voxel),
        in_halo_range q -> q <> p ->
        getVoxel q a = Ok (r, a) -> getVoxel q a' = Ok (r, a')).
Proof.
  intros Hfit Hn Halloc Hzero Hsurf Hne.
  set (ps := replicate (Z.to_nat voxelCountSurface) p).
  assert (Hcount : 0 < voxelCountSurface <= voxelCount).
  { unfold voxelCountSurface, voxelCount, voxelLengthSurface,
      voxelLengthWithNormalCorrection, voxelLength. nia. }
  assert (Hlen : Z.of_nat (length ps) = voxelCountSurface)
    by (unfold ps; rewrite length_replicate; lia).
  assert (Hrange : Forall (fun q => in_halo_range q) ps).
  { apply Forall_forall. intros q Hq. apply elem_of_replicate in Hq.
    destruct Hq as [-> _]. exact (surface_in_halo_range p Hsurf). }
  assert (Hall : Forall (fun q => in_surface q = true /\ 0 <= getInterpolation v) ps).
  { apply Forall_forall. intros q Hq. apply elem_of_replicate in Hq.
    destruct Hq as [-> _]. split; assumption. }
  eexists. split.
  { apply (for_each_setVoxel_run (fun q => q) (fun _ => v) ps a Hfit Halloc Hrange).
    - rewrite Hzero. unfold int32_min. lia.
    - rewrite Hzero, Hlen. lia. }
  match goal with |- context [isFull ?s] => set (a' := s) end.
  assert (Halloc' : voxels_allocated a').
  { unfold voxels_allocated, a'. cbn [m_voxels set_voxels].
    rewrite written_length. exact Halloc. }
  split.
  - unfold isFull, gets, a'.
    cbn [m_numVoxelLargerZero set_voxels set_numVoxelLargerZero].
    rewrite (counted_non_empty (fun q => q) (fun _ => v) ps Hall), Hzero, Hlen.
    rewrite Z.add_0_l, Z.eqb_refl. reflexivity.
  - intros q r Hq Hqp Hget.
    destruct (getVoxel_run q a Hfit Halloc Hq) as (r0 & Hr0 & Hget0).
    destruct (getVoxel_run q a' Hfit Halloc' Hq) as (r1 & Hr1 & Hget1).
    unfold a' in Hr1. cbn [m_voxels set_voxels] in Hr1.
    rewrite written_lookup_other in Hr1; [congruence | exact Hrange | exact Hq |].
    rewrite list_fmap_id. intros Hin. apply elem_of_replicate in Hin.
    destruct Hin as [Heq _]. contradiction.
Qed.

(** *** The arrays are dense *)

(** A number below [h*h*h] has three digits in base [h]. *)
Lemma three_digits (h i : Z) :
  0 <= i < h * h * h ->
  exists a b c : Z,
    0 <= a < h /\ 0 <= b < h /\ 0 <= c < h /\ i = a * h * h + b * h + c.
Proof.
  intros Hi.
  assert (Hh : 0 < h) by nia.
  exists (i / h / h), ((i / h) mod h), (i mod h).
  pose proof (Z.mod_pos_bound i h Hh) as Hc.
  pose proof (Z.mod_pos_bound (i / h) h Hh) as Hb.
  pose proof (Z.div_mod i h ltac:(lia)) as Hi1.
  pose proof (Z.div_mod (i / h) h ltac:(lia)) as Hi2.
  assert (Hq1 : 0 <= i / h < h * h).
  { split; [apply Z.div_pos; lia|].
    apply Z.div_lt_upper_bound; [lia|]. lia. }
  assert (Hq2 : 0 <= i / h / h < h).
  { split; [apply Z.div_pos; lia|].
    apply Z.div_lt_upper_bound; [lia|]. lia. }
  repeat (split; [lia|]). nia.
Qed.

(** X22: the index formulas are one-to-one onto the arrays: every index of
    the main array belongs to exactly one position of the range, and
    every index of the level-of-detail array to exactly one coordinate of
    exactly one face; no cell is shared and none is left over. *)
Theorem arrays_are_dense :
  (forall p q : vector3int32.t,
      in_halo_range p -> in_halo_range q ->
      voxel_index_formula p = voxel_index_formula q -> p = q) /\
  (forall i : Z,
      0 <= i < voxelCount ->
      exists p : vector3int32.t, in_halo_range p /\ voxel_index_formula p = i) /\
  (forall (j k : vector2int32.t) (lod lod' : Z),
      in_lod_plane j -> in_lod_plane k ->
      lod_index_formula j lod = lod_index_formula k lod' ->
      j = k /\ lod = lod') /\
  (0 <= voxelsPerTile ->
   forall i : Z,
     0 <= i < voxelCountLodAll ->
     exists (j : vector2int32.t) (lod : Z),
       0 <= lod < 6 /\ in_lod_plane j /\ lod_index_formula j lod = i).
Proof.
  split; [exact voxel_index_formula_inj|].
  split; [|split; [exact lod_index_formula_inj|]].
  - intros i Hi. unfold voxelCount in Hi.
    destruct (three_digits voxelLengthWithNormalCorrection i Hi)
      as (a & b & c & Ha & Hb & Hc & ->).
    exists (vector3int32.make (a - 1) (b - 1) (c - 1)).
    unfold in_halo_range, voxel_index_formula.
    cbn [vector3int32.x vector3int32.y vector3int32.z].
    split; [lia|]. rewrite Z.pow_2_r. ring.
  - intros Hn i Hi. unfold voxelCountLodAll, voxelCountLod in Hi.
    assert (Hl : 0 < voxelLengthLod)
      by (unfold voxelLengthLod, voxelLength; lia).
    set (l := voxelLengthLod) in *.
    pose proof (Z.mod_pos_bound i l Hl) as Hy.
    pose proof (Z.mod_pos_bound (i / l) l Hl) as Hx.
    pose proof (Z.div_mod i l ltac:(lia)) as Hi1.
    pose proof (Z.div_mod (i / l) l ltac:(lia)) as Hi2.
    assert (Hq1 : 0 <= i / l < 6 * l).
    { split; [apply Z.div_pos; lia|].
      apply Z.div_lt_upper_bound; [lia|]. lia. }
    assert (Hq2 : 0 <= i / l / l < 6).
    { split; [apply Z.div_pos; lia|].
      apply Z.div_lt_upper_bound; [lia|]. lia. }
    exists (vector2int32.make ((i / l) mod l) (i mod l)), (i / l / l).
    unfold in_lod_plane, lod_index_formula, voxelCountLod.
    cbn [vector2int32.x vector2int32.y]. fold l.
    split; [exact Hq2|]. split; [lia|]. nia.
Qed.

(** *** The assertions of the 2-D overloads *)

Lemma to_uint32_to_int32 (n : Z) : to_uint32 (to_int32 n) = n mod 2 ^ 32.
Proof.
  unfold to_uint32, to_int32.
  rewrite Zminus_mod_idemp_l. f_equal. lia.
Qed.

Lemma setVoxelLod_2d_run_at (index : vector2int32.t) (toSet : t_voxel) (lod : Z)
    (a : accessor) (l : list t_voxel) (i : Z) :
  m_calculateLod a = true ->
  m_voxelsLod a = Some l ->
  vector2int32.ge index (vector2int32.splat 0) = true ->
  vector2int32.lt index (vector2int32.splat voxelCountLod) = true ->
  to_uint32 (lod_index index lod) = i ->
  setVoxelLod_2d index toSet lod a
  = match vector_at l i with
    | Ok oldValue =>
        match vector_assign l i toSet with
        | Ok l' =>
            Ok (voxel_neq oldValue toSet,
                set_voxelsLod (Some l')
                  (set_numVoxelLargerZeroLod
                     (if 0 <=? getInterpolation toSet
                      then add32 (m_numVoxelLargerZeroLod a) 1
                      else m_numVoxelLargerZeroLod a) a))
        | Err e => Err e
        end
    | Err e => Err e
    end.
Proof.
  intros Hflag Hptr Hge Hlt Hidx.
  unfold setVoxelLod_2d, mbind, M_bind. cbv zeta.
  rewrite Hge, Hlt, Hidx, Z.geb_leb.
  unfold BASSERT, gets, mret, M_ret. rewrite Hflag, Hptr.
  rewrite bool_decide_eq_true_2 by (eexists; reflexivity).
  destruct (0 <=? getInterpolation toSet);
    unfold modify, deref_voxelsLod;
    cbn [m_voxelsLod set_numVoxelLargerZeroLod];
    rewrite Hptr;
    (destruct (vector_at l i) as [old|e]; [|reflexivity]);
    unfold lift_result at 1, mret, M_ret;
    (destruct (vector_assign l i toSet) as [l'|e]; [|reflexivity]);
    unfold lift_result, mret, M_ret; [reflexivity|].
  destruct a; reflexivity.
Qed.

(** X23: the assertions of the 2-D overload of [setVoxelLod] compare each
    coordinate with [voxelCountLod], the number of cells of a plane, not
    with its edge [voxelLengthLod]: started at the coordinate
    [(voxelLengthLod, y)] of one of the first five faces it passes them
    and does what it does at [(0, y)] of the next face, and on the last
    face it indexes past the end of the array. *)
Theorem lod_2d_assertions_are_loose
    (a : accessor) (y : Z) (v : t_voxel) (lod : Z) :
  voxelCountLodAll <= int32_max ->
  lod_enabled a ->
  0 <= voxelsPerTile ->
  0 <= y < voxelLengthLod ->
  (0 <= lod < 5 ->
   (exists (changed : bool) (a' : accessor),
       setVoxelLod_2d (vector2int32.make voxelLengthLod y) v lod a
       = Ok (changed, a')) /\
   setVoxelLod_2d (vector2int32.make voxelLengthLod y) v lod a
   = setVoxelLod_2d (vector2int32.make 0 y) v (lod + 1) a) /\
  (lod = 5 ->
   setVoxelLod_2d (vector2int32.make voxelLengthLod y) v lod a
   = Err OutOfBounds).
Proof.
  intros Hfit (Hflag & l & Hptr & Hlen) Hn Hy.
  assert (Hl : 2 <= voxelLengthLod)
    by (unfold voxelLengthLod, voxelLength in *; lia).
  assert (Hll : voxelLengthLod < voxelLengthLod * voxelLengthLod) by nia.
  assert (Hmin : int32_min < 0) by (unfold int32_min; lia).
  assert (Hge : vector2int32.ge (vector2int32.make voxelLengthLod y)
                  (vector2int32.splat 0) = true).
  { unfold vector2int32.ge, vector2int32.splat.
    cbn [vector2int32.x vector2int32.y]. rewrite !Z.geb_leb.
    apply andb_true_intro. split; apply Z.leb_le; lia. }
  assert (Hlt : vector2int32.lt (vector2int32.make voxelLengthLod y)
                  (vector2int32.splat voxelCountLod) = true).
  { unfold vector2int32.lt, vector2int32.splat, voxelCountLod.
    cbn [vector2int32.x vector2int32.y].
    apply andb_true_intro. split; apply Z.ltb_lt; lia. }
  assert (Hidx : 0 <= lod < 6 ->
                 to_uint32 (lod_index (vector2int32.make voxelLengthLod y) lod)
                 = (lod + 1) * voxelCountLod + y).
  { intros Hlod. unfold lod_index, voxelCountLodAll, voxelCountLod in *.
    cbn [vector2int32.x vector2int32.y].
    assert (0 <= lod * (voxelLengthLod * voxelLengthLod)
            <= 5 * (voxelLengthLod * voxelLengthLod)) by nia.
    rewrite (mul32_exact lod) by lia.
    rewrite (mul32_exact voxelLengthLod) by lia.
    rewrite (add32_exact (lod * _)) by lia.
    unfold add32 at 1. rewrite to_uint32_to_int32.
    rewrite Z.mod_small by (unfold int32_max in Hfit; lia). ring. }
  split.
  - intros Hlod.
    assert (Hplane : in_lod_plane (vector2int32.make 0 y))
      by (unfold in_lod_plane; cbn [vector2int32.x vector2int32.y]; lia).
    assert (Hlod' : 0 <= lod + 1 < 6) by lia.
    destruct (setVoxelLod_2d_run (vector2int32.make 0 y) v (lod + 1) a l
                Hfit Hflag Hptr Hlen Hlod' Hplane) as (old & Hold & Hnext).
    assert (Hsame : setVoxelLod_2d (vector2int32.make voxelLengthLod y) v lod a
                    = setVoxelLod_2d (vector2int32.make 0 y) v (lod + 1) a).
    { rewrite Hnext.
      rewrite (setVoxelLod_2d_run_at _ v lod a l _ Hflag Hptr Hge Hlt
                 (Hidx ltac:(lia))).
      assert (Hform : lod_index_formula (vector2int32.make 0 y) (lod + 1)
                      = (lod + 1) * voxelCountLod + y)
        by (unfold lod_index_formula; cbn [vector2int32.x vector2int32.y]; ring).
      rewrite <- Hform.
      pose proof (lod_index_formula_bounds _ (lod + 1) Hlod' Hplane) as Hb.
      destruct (vector_at_in_range l (lod_index_formula (vector2int32.make 0 y)
                                        (lod + 1))) as (old' & Hold' & Hat);
        [lia|].
      rewrite Hat, (vector_assign_in_range _ _ v) by lia.
      assert (old' = old) by congruence. subst old'. reflexivity. }
    split; [|exact Hsame].
    rewrite Hsame, Hnext. eexists _, _. reflexivity.
  - intros ->.
    rewrite (setVoxelLod_2d_run_at _ v 5 a l _ Hflag Hptr Hge Hlt
               (Hidx ltac:(lia))).
    unfold vector_at.
    assert (Hbig : Z.of_nat (length l) <= (5 + 1) * voxelCountLod + y)
      by (unfold voxelCountLodAll in Hlen; lia).
    destruct (Z.ltb_spec ((5 + 1) * voxelCountLod + y) 0);
      [unfold voxelCountLod in *; nia|].
    rewrite lookup_ge_None_2 by lia. reflexivity.
Qed.

End FurtherProperties.

(** ** Checks at the sixteen-voxel configuration *)

#[local] Existing Instance config16.

Lemma scalarVoxel_neq : neq_is_inequality Z.
Proof.
  intros a b. cbn [voxel_neq scalarVoxel].
  destruct (Z.eqb_spec a b); cbn [negb]; split; intros; congruence.
Qed.

Lemma setVoxel_getVoxel_roundtrip_witness :
  exists (changed : bool) (a' : @accessor config16),
    setVoxel (vector3int32.make 0 (-1) 17) 5 create = Ok (changed, a') /\
    getVoxel (vector3int32.make 0 (-1) 17) a' = Ok (5, a').
Proof.
  assert (Hfit : @voxelCount config16 <= int32_max) by (vm_compute; discriminate).
  assert (Halloc : voxels_allocated (@create config16))
    by (vm_compute; reflexivity).
  assert (Hpos : @in_halo_range config16 (vector3int32.make 0 (-1) 17))
    by (vm_compute; repeat split; discriminate).
  destruct (setVoxel_getVoxel_roundtrip (cfg:=config16) create
              (vector3int32.make 0 (-1) 17) 5
              Hfit Halloc Hpos) as [(changed & a' & Hset & _ & Hget) _].
  exists changed, a'. split; assumption.
Defined.

Lemma setVoxel_reports_change_witness :
  exists (changed : bool) (a' : @accessor config16),
    getVoxel (vector3int32.make 3 4 5) create = Ok (-127, create) /\
    setVoxel (vector3int32.make 3 4 5) (-127) create = Ok (changed, a') /\
    changed = false.
Proof.
  assert (Hfit : @voxelCount config16 <= int32_max) by (vm_compute; discriminate).
  assert (Halloc : voxels_allocated (@create config16))
    by (vm_compute; reflexivity).
  assert (Hpos : @in_halo_range config16 (vector3int32.make 3 4 5))
    by (vm_compute; repeat split; discriminate).
  destruct (setVoxel_reports_change (cfg:=config16) create
              (vector3int32.make 3 4 5) (-127)
              scalarVoxel_neq Hfit Halloc Hpos)
    as (old & changed & a' & Hget & Hset & Hfalse & _).
  assert (Hold : old = -127).
  { assert (Hrun : getVoxel (vector3int32.make 3 4 5) (@create config16)
                   = Ok (-127, create)) by (vm_compute; reflexivity).
    congruence. }
  subst old. exists changed, a'.
  split; [exact Hget|]. split; [exact Hset|]. apply Hfalse. reflexivity.
Defined.

Lemma counters_bump_on_non_empty_witness :
  exists (changed : bool) (a' : @accessor config16),
    setVoxel (vector3int32.make 0 0 0) 5 create = Ok (changed, a') /\
    m_numVoxelLargerZero a' = 1.
Proof.
  assert (Hfit : @voxelCount config16 <= int32_max) by (vm_compute; discriminate).
  assert (HfitLod : @voxelCountLodAll config16 <= int32_max)
    by (vm_compute; discriminate).
  assert (Halloc : voxels_allocated (@create config16))
    by (vm_compute; reflexivity).
  assert (Hpos : @in_halo_range config16 (vector3int32.make 0 0 0))
    by (vm_compute; repeat split; discriminate).
  assert (Hcount : int32_min <= m_numVoxelLargerZero (@create config16) < int32_max)
    by (vm_compute; split; [discriminate | reflexivity]).
  destruct (counters_bump_on_non_empty (cfg:=config16) Hfit HfitLod)
    as (Hbump & _ & _).
  destruct (Hbump create (vector3int32.make 0 0 0) 5 Halloc Hpos Hcount)
    as (changed & a' & Hset & _ & Hn & _ & _).
  exists changed, a'. split; [exact Hset | exact Hn].
Defined.

Lemma create_default_state_witness :
  isEmpty (@create config16) = Ok (true, create) /\
  isFull (@create config16) = Ok (false, create).
Proof.
  destruct (create_default_state (cfg:=config16))
    as (_ & _ & _ & _ & _ & _ & Hempty & Hfull).
  split; [exact Hempty|]. apply Hfull. vm_compute. reflexivity.
Defined.

Lemma calculateCoordsLod_projection_witness :
  @calculateCoordsLod config16 (vector3int32.make 7 0 9) 2
  = Ok (vector2int32.make 7 9).
Proof.
  assert (Hface : @on_face config16 (vector3int32.make 7 0 9) 2).
  { unfold on_face. cbn [vector3int32.x vector3int32.y vector3int32.z].
    assert (Hl : @voxelLengthLod config16 = 34) by (vm_compute; reflexivity).
    rewrite Hl. lia. }
  destruct (calculateCoordsLod_projection (cfg:=config16)
              (vector3int32.make 7 0 9) 2 Hface) as (_ & Hy & _).
  apply Hy. left. reflexivity.
Defined.

Lemma enabled16_lod_enabled : lod_enabled enabled16.
Proof.
  split; [reflexivity|]. eexists. split; [reflexivity|].
  vm_compute. reflexivity.
Defined.

Lemma setVoxelLod_getVoxelLod_roundtrip_witness :
  exists (changed : bool) (a' : @accessor config16),
    setVoxelLod (vector3int32.make 0 3 5) 9 1 enabled16 = Ok (changed, a') /\
    getVoxelLod (vector3int32.make 0 3 5) 1 a' = Ok (9, a').
Proof.
  assert (HfitLod : @voxelCountLodAll config16 <= int32_max)
    by (vm_compute; discriminate).
  assert (Hface : @on_face config16 (vector3int32.make 0 3 5) 1).
  { unfold on_face. cbn [vector3int32.x vector3int32.y vector3int32.z].
    assert (Hl : @voxelLengthLod config16 = 34) by (vm_compute; reflexivity).
    rewrite Hl. lia. }
  destruct (setVoxelLod_getVoxelLod_roundtrip (cfg:=config16) enabled16
              (vector3int32.make 0 3 5) 9 1
              scalarVoxel_neq HfitLod enabled16_lod_enabled Hface)
    as (index & l & old & changed & a' & _ & _ & _ & _ & Hset & _ & Hget & _).
  exists changed, a'. split; assumption.
Defined.

Lemma setCalculateLod_lifecycle_witness :
  exists a1 : @accessor config16,
    setCalculateLod true create = Ok (tt, a1) /\
    setCalculateLod true a1 = Ok (tt, a1) /\
    lod_consistent a1.
Proof.
  destruct (setCalculateLod_lifecycle (cfg:=config16))
    as (_ & Htwice & Henable & _ & _ & Hcreate & Hkeeps).
  destruct (Henable create eq_refl eq_refl) as (Hrun & _ & _).
  eexists. split; [exact Hrun|]. split; [exact (Htwice true _ _ Hrun)|].
  exact (Hkeeps (Call_setCalculateLod true) create _ tt Hcreate Hrun).
Defined.

Lemma enabled16_consistent : lod_consistent enabled16.
Proof. split; [reflexivity | intros _; eexists; reflexivity]. Defined.

Lemma serialize_roundtrip_witness :
  exists readWrite : archive,
    serialize Saving ([], enabled16) = Ok (tt, (readWrite, enabled16)) /\
    serialize Loading (readWrite ++ [], create) = Ok (tt, ([], enabled16)).
Proof.
  destruct (serialize_roundtrip (cfg:=config16) enabled16 [] enabled16_consistent)
    as (readWrite & a' & Hsave & Hload & -> & _).
  exists readWrite. split; assumption.
Defined.

Lemma indices_in_bounds_witness :
  @voxel_index config16 (vector3int32.make 17 17 17) = 6858 /\
  0 <= @voxel_index_formula config16 (vector3int32.make 17 17 17) < voxelCount /\
  @lod_index config16 (vector2int32.make 33 33) 5 = 6935 /\
  0 <= @lod_index_formula config16 (vector2int32.make 33 33) 5 < voxelCountLodAll.
Proof.
  assert (Hfit : @voxelCount config16 <= int32_max) by (vm_compute; discriminate).
  assert (HfitLod : @voxelCountLodAll config16 <= int32_max)
    by (vm_compute; discriminate).
  assert (Hpos : @in_halo_range config16 (vector3int32.make 17 17 17))
    by (vm_compute; repeat split; discriminate).
  assert (Hplane : @in_lod_plane config16 (vector2int32.make 33 33))
    by (vm_compute; repeat split; first [discriminate | reflexivity]).
  assert (Hlod : 0 <= 5 < 6) by lia.
  destruct (indices_in_bounds (cfg:=config16))
    as (Hbound & HboundLod & Hmain & Hplanes).
  destruct (Hmain Hfit (vector3int32.make 17 17 17) Hpos) as (Hidx & _).
  destruct (Hplanes HfitLod (vector2int32.make 33 33) 5 Hlod Hplane)
    as (HidxLod & _ & _).
  split; [rewrite Hidx; vm_compute; reflexivity|].
  split; [exact (Hbound _ Hpos)|].
  split; [rewrite HidxLod; vm_compute; reflexivity|].
  exact (HboundLod _ 5 Hlod Hplane).
Defined.

Lemma disable_enable_keeps_lod_count_witness :
  exists a1 a2 : @accessor config16,
    setCalculateLod false enabled16 = Ok (tt, a1) /\
    setCalculateLod true a1 = Ok (tt, a2) /\
    m_voxelsLod a2
    = Some (replicate (Z.to_nat (6 * voxelCountLod)) voxel_default) /\
    getNumVoxelLargerZeroLod a2 = Ok (3, a2).
Proof.
  destruct (disable_enable_keeps_lod_count (cfg:=config16) enabled16 eq_refl)
    as (_ & a1 & a2 & Hoff & _ & _ & Hon & Hfresh & Hcount & _).
  exists a1, a2. repeat (split; [assumption|]). exact Hcount.
Defined.

(** *** Violated preconditions and the over-count, on the same accessor *)

Example setVoxel_out_of_range :
  setVoxel (vector3int32.make 18 0 0) 5 (@create config16)
  = Err AssertionFailure.
Proof. vm_compute. reflexivity. Qed.

Example getVoxelLod_while_disabled :
  getVoxelLod (vector3int32.make 0 1 1) 0 (@create config16)
  = Err AssertionFailure.
Proof. vm_compute. reflexivity. Qed.

Example calculateCoordsLod_off_the_face :
  @calculateCoordsLod config16 (vector3int32.make 1 0 0) 0
  = Err AssertionFailure.
Proof. vm_compute. reflexivity. Qed.

Example setCalculateLod_double_allocation :
  setCalculateLod true (set_calculateLod false enabled16)
  = Err AssertionFailure.
Proof. vm_compute. reflexivity. Qed.

(** A non-empty write, an empty write and a second non-empty write at one
    position of the surface region leave the counter at two. *)
Example setVoxel_over_count :
  match
    (setVoxel (vector3int32.make 2 2 2) 5 ;;
     setVoxel (vector3int32.make 2 2 2) (-1) ;;
     setVoxel (vector3int32.make 2 2 2) 7 ;;
     getNumVoxelLargerZero) (@create config16)
  with
  | Ok (n, _) => n = 2
  | Err _ => False
  end.
Proof. vm_compute. reflexivity. Qed.

(** *** The further properties at the same configuration *)

(** Decides a condition on positions of the sixteen-voxel configuration. *)
Ltac config16_lia :=
  unfold in_halo_range, on_face, in_lod_plane, adjacent;
  cbn [fst snd vector3int32.x vector3int32.y vector3int32.z
       vector2int32.x vector2int32.y];
  change (@voxelLengthWithNormalCorrection config16) with 19;
  change (@voxelLengthLod config16) with 34;
  lia.

Lemma config16_fits : @voxelCount config16 <= int32_max.
Proof. vm_compute. discriminate. Defined.

Lemma config16_fits_lod : @voxelCountLodAll config16 <= int32_max.
Proof. vm_compute. discriminate. Defined.

Lemma create16_allocated : voxels_allocated (@create config16).
Proof. vm_compute. reflexivity. Defined.

Lemma create16_consistent : lod_consistent (@create config16).
Proof. split; [intros [l Hl]; discriminate Hl | discriminate]. Defined.

Lemma create16_well_sized : well_sized (@create config16).
Proof.
  split; [exact create16_allocated|]. split; [exact create16_consistent|].
  intros l Hl. discriminate Hl.
Defined.

Lemma create16_counter :
  int32_min <= m_numVoxelLargerZero (@create config16) /\
  m_numVoxelLargerZero (@create config16) + 3 <= int32_max.
Proof. vm_compute. split; discriminate. Defined.

Lemma out_of_range_asserts_witness :
  setVoxel (vector3int32.make 18 0 0) 5 (@create config16)
  = Err AssertionFailure /\
  getVoxel (vector3int32.make 18 0 0) (@create config16) = Err AssertionFailure.
Proof.
  destruct (out_of_range_asserts (cfg:=config16) (vector3int32.make 18 0 0) 5
              create) as (Hout & _ & _).
  apply Hout. config16_lia.
Defined.

Lemma setVoxel_other_positions_witness :
  exists (changed : bool) (a' : @accessor config16) (w : Z),
    setVoxel (vector3int32.make 0 0 0) 5 create = Ok (changed, a') /\
    getVoxel (vector3int32.make 1 0 0) create = Ok (w, create) /\
    getVoxel (vector3int32.make 1 0 0) a' = Ok (w, a').
Proof.
  apply (setVoxel_other_positions (cfg:=config16) create
           (vector3int32.make 0 0 0) (vector3int32.make 1 0 0) 5
           config16_fits create16_allocated);
    [config16_lia | config16_lia | discriminate].
Defined.

Lemma setVoxel_frame_witness :
  m_voxelsLod written16 = m_voxelsLod (@create config16) /\
  m_numVoxelLargerZeroLod written16 = 0.
Proof.
  assert (Hrun : setVoxel (vector3int32.make 0 0 0) 5 (@create config16)
                 = Ok (true, written16)) by (vm_compute; reflexivity).
  destruct (setVoxel_frame (cfg:=config16) _ _ _ _ _ Hrun)
    as (_ & _ & Hlod & _ & Hcount).
  split; [exact Hlod | exact Hcount].
Defined.

Lemma setVoxel_commutes_witness :
  exists (cp cq : bool) (a1 a2 b1 : @accessor config16),
    setVoxel (vector3int32.make 0 0 0) 5 create = Ok (cp, a1) /\
    setVoxel (vector3int32.make 1 0 0) 7 a1 = Ok (cq, a2) /\
    setVoxel (vector3int32.make 1 0 0) 7 create = Ok (cq, b1) /\
    setVoxel (vector3int32.make 0 0 0) 5 b1 = Ok (cp, a2).
Proof.
  apply (setVoxel_commutes (cfg:=config16) create
           (vector3int32.make 0 0 0) (vector3int32.make 1 0 0) 5 7
           config16_fits create16_allocated);
    [config16_lia | config16_lia | discriminate].
Defined.

Lemma setVoxel_same_sample_witness :
  exists (c1 : bool) (a1 a2 : @accessor config16),
    setVoxel (vector3int32.make 0 0 0) 5 create = Ok (c1, a1) /\
    setVoxel (vector3int32.make 0 0 0) 5 a1 = Ok (false, a2) /\
    m_voxels a2 = m_voxels a1.
Proof.
  assert (Hpos : @in_halo_range config16 (vector3int32.make 0 0 0))
    by config16_lia.
  exact (proj2 (setVoxel_same_sample (cfg:=config16) create
                  (vector3int32.make 0 0 0) 5
                  scalarVoxel_neq config16_fits create16_allocated Hpos)).
Defined.

Lemma calculateCoordsLod_defined_witness :
  @calculateCoordsLod config16 (vector3int32.make 1 0 0) 0
  = Err AssertionFailure.
Proof.
  destruct (calculateCoordsLod_defined (cfg:=config16)
              (vector3int32.make 1 0 0) 0) as (_ & Hout & _).
  apply Hout. config16_lia.
Defined.

Lemma lod_access_while_disabled_witness :
  setVoxelLod (vector3int32.make 0 3 5) 9 1 (@create config16)
  = Err AssertionFailure /\
  getVoxelLod (vector3int32.make 0 3 5) 1 (@create config16)
  = Err AssertionFailure.
Proof.
  exact (lod_access_while_disabled (cfg:=config16) create
           (vector3int32.make 0 3 5) 9 1 eq_refl).
Defined.

Lemma setVoxelLod_other_positions_witness :
  exists (changed : bool) (a' : @accessor config16) (w : Z),
    setVoxelLod (vector3int32.make 0 3 5) 9 1 enabled16 = Ok (changed, a') /\
    getVoxelLod (vector3int32.make 0 3 5) 0 enabled16 = Ok (w, enabled16) /\
    getVoxelLod (vector3int32.make 0 3 5) 0 a' = Ok (w, a').
Proof.
  apply (setVoxelLod_other_positions (cfg:=config16) enabled16
           (vector3int32.make 0 3 5) (vector3int32.make 0 3 5) 9 1 0
           config16_fits_lod enabled16_lod_enabled);
    [config16_lia | config16_lia | right; discriminate].
Defined.

Lemma fresh_arrays_read_default_witness :
  getVoxel (vector3int32.make 3 3 3) (@create config16) = Ok (-127, create).
Proof.
  destruct (fresh_arrays_read_default (cfg:=config16)) as [Hmain _].
  apply (Hmain config16_fits). config16_lia.
Defined.

Lemma enable_disable_identity_witness :
  (setCalculateLod true ;; setCalculateLod false) (@create config16)
  = Ok (tt, create).
Proof.
  exact (enable_disable_identity (cfg:=config16) create eq_refl eq_refl).
Defined.

Lemma setVoxel_batch_counts_witness :
  exists a' : @accessor config16,
    for_each (fun w => setVoxel (fst w) (snd w))
      [ (vector3int32.make 0 0 0, 5); (vector3int32.make 0 0 0, 7);
        (vector3int32.make (-1) 0 0, 5) ] create
    = Ok (tt, a') /\
    m_numVoxelLargerZero a' = 2.
Proof.
  assert (Hrange : Forall (fun w : vector3int32.t * Z => @in_halo_range config16 (fst w))
                     [ (vector3int32.make 0 0 0, 5); (vector3int32.make 0 0 0, 7);
                       (vector3int32.make (-1) 0 0, 5) ])
    by (repeat (apply Forall_cons; split; [config16_lia|]);
        exact (List.Forall_nil _)).
  destruct (setVoxel_batch_counts (cfg:=config16) _ create
              config16_fits create16_allocated Hrange
              (proj1 create16_counter) (proj2 create16_counter))
    as (a' & Hrun & Hcount & _).
  exists a'. split; [exact Hrun|]. rewrite Hcount. vm_compute. reflexivity.
Defined.

Lemma setVoxel_batch_reads_back_witness :
  exists a' : @accessor config16,
    for_each (fun w => setVoxel (fst w) (snd w))
      [ (vector3int32.make 0 0 0, 5); (vector3int32.make 1 0 0, 7) ] create
    = Ok (tt, a') /\
    getVoxel (vector3int32.make 0 0 0) a' = Ok (5, a') /\
    getVoxel (vector3int32.make 1 0 0) a' = Ok (7, a').
Proof.
  assert (Hrange : Forall (fun w : vector3int32.t * Z => @in_halo_range config16 (fst w))
                     [ (vector3int32.make 0 0 0, 5); (vector3int32.make 1 0 0, 7) ])
    by (repeat (apply Forall_cons; split; [config16_lia|]);
        exact (List.Forall_nil _)).
  assert (Hnodup : NoDup (fst <$> [ (vector3int32.make 0 0 0, 5 : Z);
                                    (vector3int32.make 1 0 0, 7 : Z) ])).
  { cbn [fmap list_fmap fst]. apply NoDup_cons. split; [|apply NoDup_singleton].
    intros Hin. apply list_elem_of_singleton in Hin. discriminate Hin. }
  assert (Hmax : m_numVoxelLargerZero (@create config16) + Z.of_nat 2 <= int32_max)
    by (vm_compute; discriminate).
  destruct (setVoxel_batch_reads_back (cfg:=config16) _ create
              config16_fits create16_allocated Hrange Hnodup
              (proj1 create16_counter) Hmax)
    as (a' & Hrun & Hback & _).
  exists a'. split; [exact Hrun|]. split.
  - apply (Hback (vector3int32.make 0 0 0, 5)). apply elem_of_cons. left. reflexivity.
  - apply (Hback (vector3int32.make 1 0 0, 7)). apply elem_of_cons. right.
    apply list_elem_of_singleton. reflexivity.
Defined.

Lemma surface_sweep_is_full_witness :
  exists a' : @accessor config16,
    for_each (fun p => setVoxel p 5) surface_positions create = Ok (tt, a') /\
    m_numVoxelLargerZero a' = 4913 /\
    isFull a' = Ok (true, a') /\
    isEmpty a' = Ok (false, a').
Proof.
  assert (Hn : 0 <= @voxelsPerTile config16) by (vm_compute; discriminate).
  assert (Hne : forall p : vector3int32.t,
             0 <= @getInterpolation _ (@t_data_ops config16) ((fun _ => 5) p))
    by (intros p; vm_compute; discriminate).
  exact (surface_sweep_is_full (cfg:=config16) (fun _ => 5) create
           config16_fits Hn create16_allocated eq_refl Hne).
Defined.

Lemma halo_is_one_voxel_witness :
  @in_halo_range config16 (vector3int32.make (-1) 17 5).
Proof.
  destruct (halo_is_one_voxel (cfg:=config16)) as [Hnear _].
  apply (Hnear (vector3int32.make 0 16 5)); [vm_compute; reflexivity|].
  config16_lia.
Defined.

Lemma setVoxelLod_frame_witness :
  m_voxels writtenLod16 = m_voxels enabled16 /\
  m_numVoxelLargerZero writtenLod16 = 0.
Proof.
  assert (Hrun : setVoxelLod (vector3int32.make 0 3 5) 9 1 enabled16
                 = Ok (true, writtenLod16)) by (vm_compute; reflexivity).
  destruct (setVoxelLod_frame (cfg:=config16) _ _ _ _ _ _ Hrun)
    as (Hmain & _ & _ & Hcount & _).
  split; [exact Hmain | exact Hcount].
Defined.

Lemma array_sizes_invariant_witness :
  well_sized (@create config16) /\ well_sized written16.
Proof.
  destruct (array_sizes_invariant (cfg:=config16)) as [Hcreate Hkeeps].
  assert (Hwell : well_sized (@create config16))
    by (apply Hcreate; vm_compute; discriminate).
  split; [exact Hwell|].
  apply (Hkeeps (@Call_setVoxel config16 (vector3int32.make 0 0 0) 5) create
           written16 tt I
           Hwell).
  vm_compute. reflexivity.
Defined.

Lemma serialize_saving_appends_witness :
  serialize Saving ([], enabled16)
  = Ok (tt, (archived_header enabled16 ++ archived_payload enabled16, enabled16)).
Proof.
  destruct (serialize_saving_appends (cfg:=config16)) as (Hrun & _ & _).
  exact (Hrun [] enabled16 enabled16_consistent).
Defined.

Lemma serialize_loading_overwrites_witness :
  exists readWrite : archive,
    serialize Saving ([], @create config16) = Ok (tt, (readWrite, create)) /\
    serialize Loading (readWrite ++ [], enabled16) = Ok (tt, ([], create)).
Proof.
  exact (serialize_loading_overwrites (cfg:=config16) create enabled16 []
           create16_consistent enabled16_consistent).
Defined.

Lemma serialize_sequence_witness :
  exists ar1 ar2 rest : archive,
    serialize Saving ([], enabled16) = Ok (tt, (ar1, enabled16)) /\
    serialize Saving (ar1, @create config16) = Ok (tt, (ar2, create)) /\
    serialize Loading (ar2, @create config16) = Ok (tt, (rest, enabled16)) /\
    serialize Loading (rest, enabled16) = Ok (tt, ([], create)).
Proof.
  exact (serialize_sequence (cfg:=config16) enabled16 create create
           enabled16_consistent create16_consistent create16_consistent).
Defined.

Lemma no_memory_fault_witness :
  (AssertionFailure = AssertionFailure /\
   forall ar : @archive config16,
     Call_getVoxel (vector3int32.make 99 0 0) <> Call_serialize Loading ar) \/
  (AssertionFailure = ArchiveMismatch /\
   exists ar : @archive config16,
     Call_getVoxel (vector3int32.make 99 0 0) = Call_serialize Loading ar).
Proof.
  apply (no_memory_fault (cfg:=config16)
           (Call_getVoxel (vector3int32.make 99 0 0)) create AssertionFailure
           config16_fits config16_fits_lod create16_well_sized).
  vm_compute. reflexivity.
Defined.

Lemma repeated_write_reports_full_witness :
  exists a' : @accessor config16,
    for_each (fun q => setVoxel q 5)
      (replicate (Z.to_nat voxelCountSurface) (vector3int32.make 2 2 2)) create
    = Ok (tt, a') /\
    isFull a' = Ok (true, a').
Proof.
  assert (Hn : 0 <= @voxelsPerTile config16) by (vm_compute; discriminate).
  assert (Hne : 0 <= @getInterpolation _ (@t_data_ops config16) 5)
    by (vm_compute; discriminate).
  destruct (repeated_write_reports_full (cfg:=config16)
              (vector3int32.make 2 2 2) 5 create
              config16_fits Hn create16_allocated eq_refl eq_refl Hne)
    as (a' & Hrun & Hfull & _).
  exists a'. split; assumption.
Defined.

Lemma arrays_are_dense_witness :
  exists p : vector3int32.t,
    @in_halo_range config16 p /\ @voxel_index_formula config16 p = 6858.
Proof.
  destruct (arrays_are_dense (cfg:=config16)) as (_ & Honto & _).
  apply Honto. vm_compute. split; [discriminate | reflexivity].
Defined.

Lemma lod_2d_assertions_are_loose_witness :
  setVoxelLod_2d (vector2int32.make (@voxelLengthLod config16) 3) 9 0 enabled16
  = setVoxelLod_2d (vector2int32.make 0 3) 9 (0 + 1) enabled16.
Proof.
  assert (Hn : 0 <= @voxelsPerTile config16) by (vm_compute; discriminate).
  assert (Hy : 0 <= 3 < @voxelLengthLod config16)
    by (change (@voxelLengthLod config16) with 34; lia).
  destruct (lod_2d_assertions_are_loose (cfg:=config16) enabled16 3 9 0
              config16_fits_lod enabled16_lod_enabled Hn Hy) as [Hnext _].
  apply Hnext. lia.
Defined.

